(** * YML.py: a shallow embedding of the GitLab services collector

    The development follows [src/YML.py]: the transport client
    ([GitLabAPIClient]), the YAML extraction engine and the name normaliser
    ([YAMLAnalyzer]) and the orchestrator ([GitLabServiceCollector]).

    Conventions.
    - A Python [str] is a [string]; a character is an [ascii], read as a code
      point below 256.
    - A Python [dict] is an insertion-ordered association list whose keys are
      pairwise different; assigning to a present key keeps its position.
    - Code that raises returns an explicit outcome; code that mutates
      [self.stats] or a local dictionary threads it as state.
    - The remote platform, [yaml.safe_load] and the regular-expression
      fallback are collaborators: they are Section variables. *)

From Stdlib Require Import String Ascii List ZArith Bool Arith Lia.
From Stdlib Require Import Permutation DecimalString.
Import ListNotations.

Open Scope string_scope.
Open Scope bool_scope.
Open Scope list_scope.

(* ================================================================= *)
(** ** Python strings *)

Module PyStr.

(** [str.isspace] on one code point below 256, the characters that
    [str.strip()] removes. *)
Definition isspace (c : ascii) : bool :=
  let n := nat_of_ascii c in
  (Nat.leb 9 n && Nat.leb n 13) || (Nat.leb 28 n && Nat.leb n 32)
  || Nat.eqb n 133 || Nat.eqb n 160.

Fixpoint lstrip_by (p : ascii -> bool) (s : string) : string :=
  match s with
  | EmptyString => EmptyString
  | String c r => if p c then lstrip_by p r else s
  end.

Fixpoint rstrip_by (p : ascii -> bool) (s : string) : string :=
  match s with
  | EmptyString => EmptyString
  | String c r =>
      match rstrip_by p r with
      | EmptyString => if p c then EmptyString else String c EmptyString
      | r' => String c r'
      end
  end.

Definition strip_by (p : ascii -> bool) (s : string) : string :=
  rstrip_by p (lstrip_by p s).

(** [s.strip()] *)
Definition strip : string -> string := strip_by isspace.

(** [s.strip(c)] for a one-character argument *)
Definition strip_char (c : ascii) : string -> string :=
  strip_by (Ascii.eqb c).

(** [s.startswith(p)] *)
Fixpoint startswith (p s : string) : bool :=
  match p, s with
  | EmptyString, _ => true
  | String _ _, EmptyString => false
  | String a p', String b s' => Ascii.eqb a b && startswith p' s'
  end.

(** [s.endswith(p)]: some suffix of [s] is [p]. *)
Fixpoint endswith (p s : string) : bool :=
  (s =? p) ||
  match s with
  | EmptyString => false
  | String _ r => endswith p r
  end.

(** [p in s] *)
Fixpoint contains (p s : string) : bool :=
  startswith p s ||
  match s with
  | EmptyString => false
  | String _ r => contains p r
  end.

(** [s[n:]] *)
Fixpoint drop (n : nat) (s : string) : string :=
  match n, s with
  | S k, String _ r => drop k r
  | _, _ => s
  end.

(** [s[:-n]] for [n > 0] *)
Definition drop_last (n : nat) (s : string) : string :=
  substring 0 (String.length s - n) s.

(** [s[a:-b]] for [b > 0] *)
Definition slice (a b : nat) (s : string) : string :=
  drop_last b (drop a s).

(** [s.split(sep)] for a one-character separator; never the empty list. *)
Fixpoint split_char (sep : ascii) (s : string) : list string :=
  match s with
  | EmptyString => [EmptyString]
  | String c r =>
      if Ascii.eqb c sep then EmptyString :: split_char sep r
      else match split_char sep r with
           | h :: t => String c h :: t
           | [] => [String c EmptyString]
           end
  end.

(** [s.replace(old, new)] for a non-empty [old]: the occurrences of [old]
    are found from the left and do not overlap.  [skip] counts the
    characters of a found occurrence that are still to be passed over. *)
Fixpoint replace_from (old new : string) (skip : nat) (s : string) : string :=
  match s with
  | EmptyString => EmptyString
  | String c r =>
      match skip with
      | S k => replace_from old new k r
      | O =>
          if startswith old s
          then new ++ replace_from old new (String.length old - 1) r
          else String c (replace_from old new 0 r)
      end
  end.

Definition replace (old new s : string) : string := replace_from old new 0 s.

(** [str(z)] for an [int] *)
Definition str_of_Z (z : Z) : string := NilZero.string_of_int (Z.to_int z).

(** [str(n)] for a non-negative [int] *)
Definition str_of_nat (n : nat) : string := str_of_Z (Z.of_nat n).

End PyStr.

(* ================================================================= *)
(** ** Python dictionaries *)

Module PyDict.
Section Dict.
Context {K V : Type}.
Variable eqb : K -> K -> bool.

(** [d.get(k)] ([None] of [option] when [k not in d]) *)
Fixpoint get (k : K) (d : list (K * V)) : option V :=
  match d with
  | [] => None
  | (k', v) :: r => if eqb k' k then Some v else get k r
  end.

(** [k in d] *)
Definition mem (k : K) (d : list (K * V)) : bool :=
  match get k d with Some _ => true | None => false end.

(** [d[k] = v]: a present key keeps its place (and its first spelling),
    a new key goes to the end. *)
Fixpoint set (k : K) (v : V) (d : list (K * V)) : list (K * V) :=
  match d with
  | [] => [(k, v)]
  | (k', v') :: r =>
      if eqb k' k then (k', v) :: r else (k', v') :: set k v r
  end.

(** [d.keys()] *)
Definition keys (d : list (K * V)) : list K := map fst d.
End Dict.
End PyDict.

(* ================================================================= *)
(** ** Outcomes of code that may raise *)

Inductive outcome (A : Type) : Type :=
| Returned (a : A)
| Raised.
Arguments Returned {A} a.
Arguments Raised {A}.

(* ================================================================= *)
(** ** GitLabAPIClient *)

Module Transport.

(** What the client reads of a [requests.Response]. *)
Record response (B : Type) : Type := mkResponse {
  status_code : Z;
  body : B;            (* [response.json()] or [response.text] *)
  next_link : bool     (* ['next' in response.links] *)
}.
Arguments mkResponse {B}.
Arguments status_code {B}.
Arguments body {B}.
Arguments next_link {B}.

(** What one [session.get]/[session.post] call does. *)
Inductive reply (B : Type) : Type :=
| Resp (r : response B)
| Timeout                 (* [requests.exceptions.Timeout] *)
| Fault.                  (* any other exception *)
Arguments Resp {B} r.
Arguments Timeout {B}.
Arguments Fault {B}.

(** [bool(response)] as the [requests] library defines it:
    [Response.__bool__] returns [self.ok], which is false exactly for the
    status codes from 400 to 599. *)
Definition requests_bool {B} (r : response B) : bool :=
  negb ((400 <=? status_code r)%Z && (status_code r <? 600)%Z).

(** [bool(response)] of a stand-in object that is always true, as a test
    double without [__bool__] is. *)
Definition always_true {B} (r : response B) : bool := true.

(** What [make_request] did: its return value, the [time.sleep] arguments
    in order, and the number of calls made on the session. *)
Record request_log (B : Type) : Type := mkLog {
  result : option (response B);
  sleeps : list Z;
  calls : nat
}.
Arguments mkLog {B}.
Arguments result {B}.
Arguments sleeps {B}.
Arguments calls {B}.

Definition slept {B} (t : Z) (l : request_log B) : request_log B :=
  mkLog (result l) (t :: sleeps l) (calls l).

Definition called {B} (l : request_log B) : request_log B :=
  mkLog (result l) (sleeps l) (S (calls l)).

Section MakeRequest.
Context {B : Type}.
(** [bool(response)] *)
Variable truth : response B -> bool.
(** The reply of the session to the call of each attempt. *)
Variable session : nat -> reply B.

(** Lines 35-58: the attempts [attempt, attempt + 1, ...], [n] of them. *)
Fixpoint attempts (n attempt : nat) : request_log B :=
  match n with
  | O => mkLog None [] 0
  | S n' =>
      called
        match session attempt with
        | Resp r =>
            if truth r && (status_code r =? 200)%Z then mkLog (Some r) [] 0
            else if truth r && (status_code r =? 429)%Z then
              slept (2 ^ (Z.of_nat attempt + 1))%Z (attempts n' (S attempt))
            else mkLog None [] 0
        | Timeout => slept (2 ^ Z.of_nat attempt)%Z (attempts n' (S attempt))
        | Fault => mkLog None [] 0
        end
  end.

Definition max_retries : nat := 3.

Definition make_request : request_log B := attempts max_retries 0.
End MakeRequest.

(** A project of the listing: [project['id']], [project['name']]. *)
Record project : Type := mkProject {
  p_id : Z;
  p_name : string
}.

(** [seq[:m]] for a Python [int] [m] *)
Definition take_upto {A} (m : Z) (l : list A) : list A :=
  if (0 <=? m)%Z then firstn (Z.to_nat m) l
  else firstn (List.length l - Z.to_nat (- m)) l.

Section GetAllProjects.
(** [bool(response)] *)
Variable truth : response (list project) -> bool.
(** The replies of the session to the requests for each page, by attempt. *)
Variable server : nat -> nat -> reply (list project).
(** [self.config.max_projects] *)
Variable max_projects : Z.

(** Lines 83-108, one turn of [while True] per unit of [fuel];
    [None] when the fuel runs out before the loop is left. *)
Fixpoint get_all_projects_from (fuel page : nat) (all_projects : list project)
  : option (list project) :=
  match fuel with
  | O => None
  | S fuel' =>
      match result (make_request truth (server page)) with
      | None => Some all_projects
      | Some response =>
          match body response with
          | [] => Some all_projects
          | projects =>
              let all_projects := all_projects ++ projects in
              if negb (max_projects =? 0)%Z
                 && (max_projects <=? Z.of_nat (List.length all_projects))%Z
              then Some (take_upto max_projects all_projects)
              else if negb (next_link response) then Some all_projects
              else get_all_projects_from fuel' (S page) all_projects
          end
      end
  end.

Definition get_all_projects (fuel : nat) : option (list project) :=
  get_all_projects_from fuel 1 [].
End GetAllProjects.

End Transport.

(* ================================================================= *)
(** ** YAMLAnalyzer.extract_image_tag *)

Module YAMLAnalyzer.
Import PyStr.

(** Lines 130-144. *)
Definition extract_image_tag (image_string : string) : string :=
  if image_string =? "" then ""
  else
    let image_string := strip image_string in
    if contains ":" image_string then
      let tag := last (split_char ":" image_string) "" in
      if startswith "${" tag && endswith "}" tag then slice 2 1 tag
      else if startswith "${{" tag && endswith "}}" tag then slice 3 2 tag
      else tag
    else image_string.


(** *** normalize_service_name *)

Definition newline : ascii := "010"%char.

(** A match of [\[.*?\]] can be completed over [s], the text after an
    opening bracket: a closing bracket comes before any line break ([.]
    does not match a line break). *)
Fixpoint closes (s : string) : bool :=
  match s with
  | EmptyString => false
  | String c r =>
      if Ascii.eqb c "]" then true
      else if Ascii.eqb c newline then false
      else closes r
  end.

(** [re.sub(r'\[.*?\]', '', s)]: matches are taken from the left, each
    ends at the first closing bracket.  [inside] says that the scan is
    within a match. *)
Fixpoint sub_brackets (inside : bool) (s : string) : string :=
  match s with
  | EmptyString => EmptyString
  | String c r =>
      if inside then
        if Ascii.eqb c "]" then sub_brackets false r else sub_brackets true r
      else if Ascii.eqb c "[" && closes r then sub_brackets true r
      else String c (sub_brackets false r)
  end.

(** [re.sub(r'_+', '_', s)]: an underscore followed by an underscore is
    dropped. *)
Fixpoint sub_underscores (s : string) : string :=
  match s with
  | EmptyString => EmptyString
  | String c r =>
      if Ascii.eqb c "_" then
        match r with
        | String c' _ =>
            if Ascii.eqb c' "_" then sub_underscores r
            else String c (sub_underscores r)
        | EmptyString => String c EmptyString
        end
      else String c (sub_underscores r)
  end.

(** [name[9:]] when [name] starts with ['services_'] *)
Definition strip_services_prefix (name : string) : string :=
  if startswith "services_" name then drop 9 name else name.

(** Lines 194-204, on a [str]. *)
Definition normalize_service_name (name : string) : string :=
  if name =? "" then ""
  else
    let name := replace "." "_" (replace "-" "_" name) in
    let name := strip_services_prefix name in
    let name := sub_brackets false name in
    let name := sub_underscores name in
    strip_char "_" name.

(** *** Parsed YAML documents *)

(** The scalars of a parsed document: [None], [bool], [int], [str].
    (Floats, timestamps and binaries are not represented.) *)
Inductive scalar : Type :=
| SNone
| SBool (b : bool)
| SInt (z : Z)
| SStr (s : string).

(** A parsed document; the keys of a mapping are scalars. *)
#[warnings="-register-all"]
Inductive pyval : Type :=
| VScalar (x : scalar)
| VList (l : list pyval)
| VDict (d : list (scalar * pyval)).

(** [bool(x)] *)
Definition truthy (x : scalar) : bool :=
  match x with
  | SNone => false
  | SBool b => b
  | SInt z => negb (z =? 0)%Z
  | SStr s => negb (s =? "")
  end.

Definition truthy_val (v : pyval) : bool :=
  match v with
  | VScalar x => truthy x
  | VList l => match l with [] => false | _ => true end
  | VDict d => match d with [] => false | _ => true end
  end.

(** [str(x)], what an f-string writes for [x] *)
Definition py_str (x : scalar) : string :=
  match x with
  | SNone => "None"
  | SBool true => "True"
  | SBool false => "False"
  | SInt z => str_of_Z z
  | SStr s => s
  end.

(** Equality of dictionary keys: [True == 1] and [False == 0]. *)
Definition key_eqb (x y : scalar) : bool :=
  match x, y with
  | SNone, SNone => true
  | SStr a, SStr b => a =? b
  | SBool a, SBool b => Bool.eqb a b
  | SInt a, SInt b => (a =? b)%Z
  | SBool a, SInt b | SInt b, SBool a => ((if a then 1 else 0) =? b)%Z
  | _, _ => false
  end.

(** The dictionary [services]: names to tags. *)
Definition service_map : Type := list (scalar * string).

(** The six keys whose values the search does not enter (line 162). *)
Definition structural_keys : list string :=
  ["image"; "build"; "networks"; "volumes"; "ports"; "environment"].

(** [k in [...]] of line 162 *)
Definition structural (k : scalar) : bool :=
  existsb (fun n => key_eqb k (SStr n)) structural_keys.

(** [f"{path}.{k}" if path else k] *)
Definition child_path (path k : scalar) : scalar :=
  if truthy path then SStr (py_str path ++ "." ++ py_str k) else k.

(** [f"{path}[{i}]"] *)
Definition index_path (path : scalar) (i : nat) : scalar :=
  SStr (py_str path ++ "[" ++ str_of_nat i ++ "]").

(** [next((obj.get(n) for n in [...] if n in obj), "unnamed")] *)
Fixpoint first_present (names : list string) (obj : list (scalar * pyval)) : pyval :=
  match names with
  | [] => VScalar (SStr "unnamed")
  | n :: rest =>
      match PyDict.get key_eqb (SStr n) obj with
      | Some v => v
      | None => first_present rest obj
      end
  end.

(** [path or next(...)] of line 159 *)
Definition service_name (obj : list (scalar * pyval)) (path : scalar) : pyval :=
  if truthy path then VScalar path
  else first_present ["name"; "container_name"; "service"] obj.

(** The state of the search: the dictionary after a normal end, or the
    dictionary as it was when [services[name] = tag] raised [TypeError]
    for a name that is a list or a mapping. *)
Inductive search : Type :=
| Ok (s : service_map)
| Err (s : service_map).

Definition and_then (r : search) (f : service_map -> search) : search :=
  match r with
  | Ok s => f s
  | Err s => Err s
  end.

(** Lines 157-160. *)
Definition record_image (obj : list (scalar * pyval)) (path : scalar)
    (services : service_map) : search :=
  match PyDict.get key_eqb (SStr "image") obj with
  | Some (VScalar (SStr image)) =>
      let tag := extract_image_tag image in
      match service_name obj path with
      | VScalar name => Ok (PyDict.set key_eqb name tag services)
      | _ => Err services
      end
  | _ => Ok services
  end.

(** Lines 155-166. *)
Fixpoint recursive_search (obj : pyval) (path : scalar) (services : service_map)
    {struct obj} : search :=
  match obj with
  | VDict d =>
      and_then (record_image d path services)
        ((fix items (l : list (scalar * pyval)) (services : service_map) : search :=
            match l with
            | [] => Ok services
            | (k, v) :: rest =>
                and_then
                  (if structural k then Ok services
                   else recursive_search v (child_path path k) services)
                  (items rest)
            end) d)
  | VList l =>
      (fix elems (l : list pyval) (i : nat) (services : service_map) : search :=
         match l with
         | [] => Ok services
         | item :: rest =>
             and_then (recursive_search item (index_path path i) services)
                      (elems rest (S i))
         end) l 0 services
  | VScalar _ => Ok services
  end.

(** The dictionary that the handlers of lines 169-174 leave. *)
Definition final (r : search) : service_map :=
  match r with Ok s | Err s => s end.

(** Lines 152-168, once the document is loaded. *)
Definition search_document (data : pyval) : service_map :=
  if negb (truthy_val data) then []
  else final (recursive_search data (SStr "") []).

(** What [yaml.safe_load] does on a text. *)
Inductive load_result : Type :=
| Loaded (data : pyval)
| YAMLError               (* a [yaml.YAMLError] of any kind: scanner,
                             parser, composer or constructor error *)
| OtherError.             (* any other [Exception] *)

Section FindServices.
Variable safe_load : string -> load_result.
(** [extract_images_via_regex]; its keys are strings. *)
Variable extract_images_via_regex : string -> list (string * string).

(** Lines 146-174. *)
Definition find_services_in_yaml (content : string) : service_map :=
  match safe_load content with
  | Loaded data => search_document data
  | YAMLError =>
      map (fun e => (SStr (fst e), snd e)) (extract_images_via_regex content)
  | OtherError => []
  end.
End FindServices.

End YAMLAnalyzer.



(* ================================================================= *)
(** ** GitLabServiceCollector *)

Module Collector.
Import PyStr YAMLAnalyzer Transport.

(** An entry of the file tree: [f.get('type')], [f['path']], [f['name']]. *)
Record file_entry : Type := mkFile {
  f_type : string;
  f_path : string;
  f_name : string
}.

(** [self.stats] *)
Record stats : Type := mkStats {
  total_projects : nat;
  projects_with_yaml : nat;
  total_yaml_files : nat;
  total_services : nat;
  errors : nat
}.

Definition no_stats : stats := mkStats 0 0 0 0 0.

Definition add_error (st : stats) : stats :=
  mkStats (total_projects st) (projects_with_yaml st) (total_yaml_files st)
          (total_services st) (S (errors st)).

Definition add_manifest (n : nat) (st : stats) : stats :=
  mkStats (total_projects st) (projects_with_yaml st) (S (total_yaml_files st))
          (total_services st + n) (errors st).

Definition add_project_with_yaml (st : stats) : stats :=
  mkStats (total_projects st) (S (projects_with_yaml st)) (total_yaml_files st)
          (total_services st) (errors st).

Definition set_total_projects (n : nat) (st : stats) : stats :=
  mkStats n (projects_with_yaml st) (total_yaml_files st)
          (total_services st) (errors st).

(** A stored ServiceMap: normalised names to tags. *)
Definition norm_map : Type := list (string * string).
(** [project_services]: manifest keys to ServiceMaps. *)
Definition manifest_map : Type := list (string * norm_map).
(** [self.results]: project names to their manifests. *)
Definition result_map : Type := list (string * manifest_map).

(** The dictionary that [analyze_project] returns. *)
Record project_result : Type := mkResult {
  project_id : Z;
  project_name : string;
  services : manifest_map
}.

Definition excluded_files : list string :=
  [".gitlab-ci.yml"; "docker-compose.yml"; "docker-compose.yaml"].

(** Lines 230-231. *)
Definition is_candidate (f : file_entry) : bool :=
  (f_type f =? "blob")
  && (endswith ".yml" (f_name f) || endswith ".yaml" (f_name f))
  && negb (existsb (String.eqb (f_name f)) excluded_files).

(** Lines 251-253. *)
Definition manifest_key (name : string) : string :=
  strip_services_prefix (replace ".yaml" "" (replace ".yml" "" name)).

(** [normalize_service_name] on a key of [services], whatever its type:
    a false key gives [""], a true key that is not a [str] has no
    [replace] and the call raises [AttributeError]. *)
Definition normalize_key (s : scalar) : outcome string :=
  if negb (truthy s) then Returned ""
  else match s with
       | SStr name => Returned (normalize_service_name name)
       | _ => Raised
       end.

(** Line 250: the comprehension, filling [norm] item by item. *)
Fixpoint normalized (items : service_map) (norm : norm_map) : outcome norm_map :=
  match items with
  | [] => Returned norm
  | (s, t) :: rest =>
      match normalize_key s with
      | Returned k => normalized rest (PyDict.set String.eqb k t norm)
      | Raised => Raised
      end
  end.

Section Analyze.
(** [self.api.get_project_files], [[]] when the request failed *)
Variable get_project_files : Z -> list file_entry.
(** [self.api.get_file_content], [None] when the request failed *)
Variable get_file_content : Z -> string -> option string.
Variable safe_load : string -> load_result.
Variable extract_images_via_regex : string -> list (string * string).

(** Lines 242-259: one turn of the loop over [yaml_files]. *)
Definition analyze_file (pid : Z) (yf : file_entry)
    (project_services : manifest_map) (st : stats)
  : outcome manifest_map * stats :=
  match get_file_content pid (f_path yf) with
  | None => (Returned project_services, add_error st)
  | Some content =>
      if content =? "" then (Returned project_services, add_error st)
      else
        let services :=
          find_services_in_yaml safe_load extract_images_via_regex content in
        match services with
        | [] => (Returned project_services, st)
        | _ =>
            match normalized services [] with
            | Raised => (Raised, st)
            | Returned norm =>
                let key := manifest_key (f_name yf) in
                (Returned (PyDict.set String.eqb key norm project_services),
                 add_manifest (List.length services) st)
            end
        end
  end.

(** Lines 241-259. *)
Fixpoint analyze_files (pid : Z) (yaml_files : list file_entry)
    (project_services : manifest_map) (st : stats)
  : outcome manifest_map * stats :=
  match yaml_files with
  | [] => (Returned project_services, st)
  | yf :: rest =>
      match analyze_file pid yf project_services st with
      | (Returned project_services, st) =>
          analyze_files pid rest project_services st
      | (Raised, st) => (Raised, st)
      end
  end.

(** Lines 217-264.  The statistics are changed in place, so the changes
    made before an exception stay. *)
Definition analyze_project (p : project) (st : stats)
  : outcome (option project_result) * stats :=
  match get_project_files (p_id p) with
  | [] => (Returned None, st)
  | files =>
      match filter is_candidate files with
      | [] => (Returned None, st)
      | yaml_files =>
          match analyze_files (p_id p) yaml_files [] st with
          | (Raised, st) => (Raised, st)
          | (Returned [], st) => (Returned None, st)
          | (Returned project_services, st) =>
              (Returned (Some (mkResult (p_id p) (p_name p) project_services)),
               add_project_with_yaml st)
          end
      end
  end.
End Analyze.

(** [self.stats] and [self.results] *)
Record collector : Type := mkCollector {
  stats_of : stats;
  results : result_map
}.

Definition new_collector : collector := mkCollector no_stats [].

Section Collect.
(** [self.analyze_project] *)
Variable analyze : project -> stats -> outcome (option project_result) * stats.

(** Lines 299-300 and 307-308. *)
Definition store (res : option project_result) (st : stats) (r : result_map)
  : collector :=
  match res with
  | Some res => mkCollector st (PyDict.set String.eqb (project_name res) (services res) r)
  | None => mkCollector st r
  end.

(** Lines 294-303.  The units are taken to run one after the other, in
    the order in which [as_completed] hands them over, each one on the
    statistics that the one before has left; a unit that raised is counted
    by the handler.  Two units that update [self.stats] at the same time
    are not modelled: what is stated of the counters of this path holds of
    the runs in which the units do not overlap.  [total_projects], which is
    set before the units start, and [self.results], which the loop of line
    296 alone writes, do not depend on it. *)
Fixpoint collect_threaded (completed : list project) (c : collector) : collector :=
  match completed with
  | [] => c
  | p :: rest =>
      collect_threaded rest
        match analyze p (stats_of c) with
        | (Returned res, st) => store res st (results c)
        | (Raised, st) => mkCollector (add_error st) (results c)
        end
  end.

(** Lines 305-308: no handler, an exception leaves the loop and the
    method. *)
Fixpoint collect_sequential (projects : list project) (c : collector)
  : outcome unit * collector :=
  match projects with
  | [] => (Returned tt, c)
  | p :: rest =>
      match analyze p (stats_of c) with
      | (Returned res, st) => collect_sequential rest (store res st (results c))
      | (Raised, st) => (Raised, mkCollector st (results c))
      end
  end.

(** Lines 266-310.  [connected] is what [test_connection] returned,
    [projects] what [get_all_projects] returned, [completed] the projects
    in the order in which their units complete when threads are used. *)
Definition collect_all_services (connected : bool) (projects : list project)
    (use_threads : bool) (completed : list project) (c : collector)
  : outcome unit * collector :=
  if negb connected then (Returned tt, c)
  else
    match projects with
    | [] => (Returned tt, c)
    | _ =>
        let c := mkCollector
                   (set_total_projects (List.length projects) (stats_of c))
                   (results c) in
        if use_threads && Nat.ltb 1 (List.length projects)
        then (Returned tt, collect_threaded completed c)
        else collect_sequential projects c
    end.
End Collect.

End Collector.

(* ================================================================= *)
(** ** The shape of a normalised name *)

Module Shape.
Import PyStr YAMLAnalyzer.

Fixpoint all_chars (p : ascii -> bool) (s : string) : bool :=
  match s with
  | EmptyString => true
  | String c r => p c && all_chars p r
  end.

Definition is_not (a : ascii) (c : ascii) : bool := negb (Ascii.eqb c a).

(** No line break in [s]. *)
Definition one_line (s : string) : bool := all_chars (is_not newline) s.

(** No underscore is followed by an underscore. *)
Fixpoint no_double_underscore (s : string) : bool :=
  match s with
  | EmptyString => true
  | String c r =>
      negb (Ascii.eqb c "_" && startswith "_" r) && no_double_underscore r
  end.

(** No opening bracket is followed, on its line, by a closing bracket. *)
Fixpoint no_bracket_group (s : string) : bool :=
  match s with
  | EmptyString => true
  | String c r => negb (Ascii.eqb c "[" && closes r) && no_bracket_group r
  end.

(** The invariant that the code keeps on the keys of a ServiceMap: no ['-']
    and no ['.'], no bracketed group on one line (an opening bracket,
    characters other than a line break, a closing bracket), no two
    underscores in a row, no underscore at either end. *)
Definition normal_name (s : string) : Prop :=
  contains "-" s = false /\
  contains "." s = false /\
  (forall u v w : string, s = (u ++ "[" ++ v ++ "]" ++ w)%string -> one_line v = false) /\
  contains "__" s = false /\
  startswith "_" s = false /\
  endswith "_" s = false.

(** The same, as equations on the executable tests. *)
Definition shaped (y : string) : Prop :=
  all_chars (is_not "-") y = true /\
  all_chars (is_not ".") y = true /\
  no_bracket_group y = true /\
  no_double_underscore y = true /\
  startswith "_" y = false /\
  endswith "_" y = false.

(** The characters that [q] takes away are neither closing brackets nor
    line breaks. *)
Definition keeps_brackets (q : ascii -> bool) : Prop :=
  forall c, q c = true -> Ascii.eqb c "]" = false /\ Ascii.eqb c newline = false.

End Shape.

(* ================================================================= *)
(** ** The invariant on stored ServiceMaps *)

Module Invariant.
Import Shape Collector.

(** Every key of a stored ServiceMap is a normalised name. *)
Definition normal_keys (m : norm_map) : Prop :=
  Forall (fun e => normal_name (fst e)) m.

Definition normal_manifests (ps : manifest_map) : Prop :=
  Forall (fun e => normal_keys (snd e)) ps.

Definition normal_results (r : result_map) : Prop :=
  Forall (fun e => normal_manifests (snd e)) r.

End Invariant.

(* ================================================================= *)
(** ** The search, read as a walk over the document *)

Module Walk.
Import YAMLAnalyzer.

(** A mapping with a string-valued [image] key. *)
Definition has_string_image (d : list (scalar * pyval)) : bool :=
  match PyDict.get key_eqb (SStr "image") d with
  | Some (VScalar (SStr _)) => true
  | _ => false
  end.

(** The tag of such a mapping. *)
Definition node_tag (d : list (scalar * pyval)) : string :=
  match PyDict.get key_eqb (SStr "image") d with
  | Some (VScalar (SStr image)) => extract_image_tag image
  | _ => ""
  end.

(** The key under which a mapping met at [path] is entered, when its name
    is hashable. *)
Definition node_key (d : list (scalar * pyval)) (path : scalar) : option scalar :=
  match service_name d path with
  | VScalar name => Some name
  | _ => None
  end.

(** The number of mapping nodes with a string-valued [image] key in the
    whole document. *)
Fixpoint count_image_maps (v : pyval) : nat :=
  match v with
  | VScalar _ => 0
  | VList l =>
      (fix sum (l : list pyval) : nat :=
         match l with
         | [] => 0
         | x :: rest => count_image_maps x + sum rest
         end) l
  | VDict d =>
      (if has_string_image d then 1 else 0)
      + (fix sum (l : list (scalar * pyval)) : nat :=
           match l with
           | [] => 0
           | (_, x) :: rest => count_image_maps x + sum rest
           end) d
  end.

(** A mapping node of the document and the path at which it is met. *)
Definition node : Type := (scalar * list (scalar * pyval))%type.

(** The mapping nodes with a string-valued [image] key that are reached
    from the root through the values of keys that are not structural and
    through the elements of sequences, in document order. *)
Fixpoint reached (v : pyval) (path : scalar) : list node :=
  match v with
  | VScalar _ => []
  | VList l =>
      (fix elems (l : list pyval) (i : nat) : list node :=
         match l with
         | [] => []
         | x :: rest => reached x (index_path path i) ++ elems rest (S i)
         end) l 0
  | VDict d =>
      (if has_string_image d then [(path, d)] else [])
      ++ (fix items (l : list (scalar * pyval)) : list node :=
            match l with
            | [] => []
            | (k, x) :: rest =>
                (if structural k then [] else reached x (child_path path k))
                ++ items rest
            end) d
  end.

(** The names of the nodes are hashable and pairwise different as keys
    (and different from the keys [seen]). *)
Fixpoint fresh_names (nodes : list node) (seen : list scalar) : bool :=
  match nodes with
  | [] => true
  | (path, d) :: rest =>
      match node_key d path with
      | Some k => negb (existsb (key_eqb k) seen) && fresh_names rest (k :: seen)
      | None => false
      end
  end.

Definition distinct_names (nodes : list node) : bool := fresh_names nodes [].

(** The assignments of line 160 for a list of nodes, in order, up to the
    first one that raises. *)
Fixpoint write_all (nodes : list node) (s : service_map) : search :=
  match nodes with
  | [] => Ok s
  | (path, d) :: rest => and_then (record_image d path s) (write_all rest)
  end.

(** What is left of the value of a structural key when nothing below it
    is kept: a string stays, anything else becomes [None]. *)
Definition cut (v : pyval) : pyval :=
  match v with
  | VScalar (SStr s) => v
  | _ => VScalar SNone
  end.

(** The document without anything below its structural keys. *)
Fixpoint prune (v : pyval) : pyval :=
  match v with
  | VScalar x => VScalar x
  | VList l => VList (map prune l)
  | VDict d =>
      VDict (map (fun kv : scalar * pyval =>
                    let (k, x) := kv in
                    (k, if structural k then cut x else prune x)) d)
  end.

(** Induction on documents. *)
Section Induction.
Variable P : pyval -> Prop.
Hypothesis on_scalar : forall x, P (VScalar x).
Hypothesis on_list : forall l, Forall P l -> P (VList l).
Hypothesis on_dict : forall d, Forall (fun kv => P (snd kv)) d -> P (VDict d).

Fixpoint pyval_induction (v : pyval) : P v :=
  match v with
  | VScalar x => on_scalar x
  | VList l =>
      on_list l
        ((fix all (l : list pyval) : Forall P l :=
            match l with
            | [] => Forall_nil P
            | x :: rest => Forall_cons x (pyval_induction x) (all rest)
            end) l)
  | VDict d =>
      on_dict d
        ((fix all (d : list (scalar * pyval)) : Forall (fun kv => P (snd kv)) d :=
            match d with
            | [] => Forall_nil _
            | kv :: rest =>
                Forall_cons kv (pyval_induction (snd kv)) (all rest)
            end) d)
  end.
End Induction.

End Walk.

(* ================================================================= *)
(** ** Scenarios *)

Module Scenario.
Import PyStr YAMLAnalyzer Transport Collector.

(** Two responses 429, then a response 200. *)
Definition rate_limited_twice : nat -> reply unit :=
  fun attempt =>
    match attempt with
    | 0 | 1 => Resp (mkResponse 429%Z tt false)
    | _ => Resp (mkResponse 200%Z tt false)
    end.

(** An image entry [image: <ref>] *)
Definition image (ref : string) : scalar * pyval :=
  (SStr "image", VScalar (SStr ref)).

(** [{web: {image: "nginx:1.21"}}] *)
Definition web_doc : pyval :=
  VDict [(SStr "web", VDict [image "nginx:1.21"])].

(** [{image: "nginx:1.21", name: 7}]: the service is named by the [int]
    under [name], on which [normalize_service_name] has no [replace]. *)
Definition int_name_doc : pyval :=
  VDict [image "nginx:1.21"; (SStr "name", VScalar (SInt 7))].

(** [{a: {image: "x:1"}, "": {image: "y:2", name: []}}]: the second
    service is named by a list, which is not hashable. *)
Definition list_name_doc : pyval :=
  VDict [(SStr "a", VDict [image "x:1"]);
         (SStr "", VDict [image "y:2"; (SStr "name", VList [])])].

(** [{my-svc: {image: "app:1"}, my.svc: {image: "app:2"}}] *)
Definition colliding_doc : pyval :=
  VDict [(SStr "my-svc", VDict [image "app:1"]);
         (SStr "my.svc", VDict [image "app:2"])].

(** [{image: "x:1", unnamed: {image: "y:2"}}]: two mappings with an
    image, both named ["unnamed"]. *)
Definition same_name_doc : pyval :=
  VDict [image "x:1"; (SStr "unnamed", VDict [image "y:2"])].

(** [{build: {image: "x:1"}, web: {image: "y:2"}}] *)
Definition build_doc : pyval :=
  VDict [(SStr "build", VDict [image "x:1"]); (SStr "web", VDict [image "y:2"])].

Definition blob (name : string) : file_entry := mkFile "blob" name name.

(** A platform on which every project holds the files [names], each with
    the text [text]. *)
Definition files_named (names : list string) : Z -> list file_entry :=
  fun _ => map blob names.
Definition text_of (text : string) : Z -> string -> option string :=
  fun _ _ => Some text.
(** A parser that returns [doc]. *)
Definition loads (doc : pyval) : string -> load_result :=
  fun _ => Loaded doc.
(** A parser that raises an exception other than [yaml.YAMLError]. *)
Definition load_fails : string -> load_result := fun _ => OtherError.
Definition no_regex : string -> list (string * string) := fun _ => [].

Definition demo : project := mkProject 1 "demo".
Definition other : project := mkProject 2 "other".

(** Project 1 holds a manifest whose analysis raises, project 2 the
    manifest [infra.yaml] of the end-to-end example. *)
Definition two_files : Z -> list file_entry :=
  fun pid => if (pid =? 1)%Z then [blob "bad.yaml"] else [blob "infra.yaml"].
Definition two_loads : string -> load_result :=
  fun text => if text =? "bad" then Loaded int_name_doc else Loaded web_doc.
Definition two_texts : Z -> string -> option string :=
  fun pid _ => if (pid =? 1)%Z then Some "bad" else Some "good".
Definition analyze_two : project -> stats -> outcome (option project_result) * stats :=
  analyze_project two_files two_texts two_loads no_regex.

(** A simulated listing: page [i + 1] holds [nth i pages], every page but
    the last carries the link to a next page, and a page beyond the last is
    empty.  Every request is answered with status 200 at once. *)
Definition listing_server (pages : list (list project))
  : nat -> nat -> reply (list project) :=
  fun page _ =>
    match page with
    | O => Resp (mkResponse 200%Z [] false)
    | S i =>
        match nth_error pages i with
        | Some items =>
            Resp (mkResponse 200%Z items (Nat.ltb page (List.length pages)))
        | None => Resp (mkResponse 200%Z [] false)
        end
    end.

(** The page size that [get_all_projects] asks for. *)
Definition page_size : nat := 50.

(** A full page of projects. *)
Definition full_page : list project :=
  map (fun i => mkProject (Z.of_nat i) "p") (seq 0 page_size).

(** The manifest key as section 4.4 words it: the file name without its
    extension [.yml] or [.yaml], then without a leading [services_]. *)
Definition spec_manifest_key (name : string) : string :=
  strip_services_prefix
    (if endswith ".yaml" name then drop_last 5 name
     else if endswith ".yml" name then drop_last 4 name
     else name).

End Scenario.

From Stdlib Require DecimalPos DecimalZ.

(* ================================================================= *)
(** ** More of the client *)

Module Paging.
Import Transport.

(** The projects that the request for a page brings, none when it fails. *)
Definition page_body (truth : response (list project) -> bool)
    (server : nat -> nat -> reply (list project)) (page : nat) : list project :=
  match result (make_request truth (server page)) with
  | Some response => body response
  | None => []
  end.

(** The pages [1] to [k], one after the other. *)
Definition pages_upto (truth : response (list project) -> bool)
    (server : nat -> nat -> reply (list project)) (k : nat) : list project :=
  concat (map (page_body truth server) (seq 1 k)).

(** The seconds slept in all. *)
Definition total_sleep (l : list Z) : Z := fold_right Z.add 0%Z l.

End Paging.

(* ================================================================= *)
(** ** The methods of the client that wrap [make_request] *)

Module Client.
Import PyStr YAMLAnalyzer Transport Collector.

(** Lines 73 and 121: [path.replace('/', '%2F')]. *)
Definition encode_path (path : string) : string := replace "/" "%2F" path.

(** A request: the URL and the parameters given to [make_request]. *)
Definition request : Type := (string * list (string * scalar))%type.

Section Methods.
(** [self.config.url] *)
Variable url : string.
(** What the session replies to a request, by attempt, for each kind of
    body that the methods read: the version of [response.json()], the [id]
    of [response.json()], the list [response.json()], [response.text]. *)
Variable version_session : request -> nat -> reply (option string).
Variable group_session : request -> nat -> reply (option Z).
Variable tree_session : request -> nat -> reply (list file_entry).
Variable file_session : request -> nat -> reply string.

(** Lines 60-67. *)
Definition test_connection : bool :=
  match result (make_request requests_bool
                  (version_session ((url ++ "/api/v4/version")%string, []))) with
  | Some response => requests_bool response
  | None => false
  end.

(** Lines 69-76. *)
Definition get_group_id (group_path : string) : option Z :=
  if group_path =? "" then None
  else
    let encoded := encode_path group_path in
    match result (make_request requests_bool
                    (group_session ((url ++ "/api/v4/groups/" ++ encoded)%string, []))) with
    | Some response => if requests_bool response then body response else None
    | None => None
    end.

(** The request of lines 114-116. *)
Definition tree_request (project_id : Z) : request :=
  ((url ++ "/api/v4/projects/" ++ str_of_Z project_id ++ "/repository/tree")%string,
   [("recursive", SBool true); ("per_page", SInt 100)]).

(** Lines 112-117. *)
Definition get_project_files (project_id : Z) : list file_entry :=
  match result (make_request requests_bool (tree_session (tree_request project_id))) with
  | Some response => if requests_bool response then body response else []
  | None => []
  end.

(** The request of lines 121-123. *)
Definition file_request (project_id : Z) (file_path ref : string) : request :=
  ((url ++ "/api/v4/projects/" ++ str_of_Z project_id ++ "/repository/files/"
        ++ encode_path file_path ++ "/raw")%string,
   [("ref", SStr ref)]).

(** Lines 119-124. *)
Definition get_file_content (project_id : Z) (file_path ref : string)
  : option string :=
  match result (make_request requests_bool
                  (file_session (file_request project_id file_path ref))) with
  | Some response => if requests_bool response then Some (body response) else None
  | None => None
  end.

Variable safe_load : string -> load_result.
Variable extract_images_via_regex : string -> list (string * string).

(** [analyze_project] on this client; line 242 leaves [ref] at ["main"]. *)
Definition analyze_project : project -> stats -> outcome (option project_result) * stats :=
  Collector.analyze_project get_project_files
    (fun project_id file_path => get_file_content project_id file_path "main")
    safe_load extract_images_via_regex.
End Methods.

End Client.

(* ================================================================= *)
(** ** The regular-expression fallback *)

Module Regex.
Import PyStr YAMLAnalyzer.

(** Lines 188-191: what one match adds, by the number of its groups. *)
Definition record_match (services : list (string * string)) (groups : list string)
  : list (string * string) :=
  match groups with
  | [image] =>
      PyDict.set String.eqb
        ("service_" ++ str_of_nat (List.length services))%string
        (extract_image_tag image) services
  | [name; image] =>
      PyDict.set String.eqb name (extract_image_tag image) services
  | _ => services
  end.

Section Fallback.
(** [re.finditer(patterns[i], content, re.MULTILINE | re.IGNORECASE)]:
    the groups of each match, in the order of the matches. *)
Variable finditer : nat -> string -> list (list string).

(** Lines 176-192, over the four patterns. *)
Definition extract_images_via_regex (content : string) : list (string * string) :=
  fold_left
    (fun services pattern => fold_left record_match (finditer pattern content) services)
    [0; 1; 2; 3] [].
End Fallback.

(** The entries [service_<from>], [service_<from + 1>], ... for a list
    of images. *)
Fixpoint numbered (from : nat) (images : list string) : list (string * string) :=
  match images with
  | [] => []
  | image :: rest =>
      (("service_" ++ str_of_nat from)%string, extract_image_tag image)
      :: numbered (S from) rest
  end.

(** The first group of each match of the three patterns with one group,
    in the order of the patterns and of the matches. *)
Definition single_captures (finditer : nat -> string -> list (list string))
    (content : string) : list string :=
  flat_map (fun pattern => map (fun groups => hd "" groups) (finditer pattern content))
    [0; 1; 2].

End Regex.

(* ================================================================= *)
(** ** Documents in the shape of a compose file *)

Module Compose.
Import YAMLAnalyzer.

(** [name: {image: ref}] *)
Definition service (e : string * string) : scalar * pyval :=
  (SStr (fst e), VDict [(SStr "image", VScalar (SStr (snd e)))]).

(** [{services: {name: {image: ref}, ...}}] *)
Definition document (svcs : list (string * string)) : pyval :=
  VDict [(SStr "services", VDict (map service svcs))].

(** The ServiceMap of such a document: each name with the tag of its image. *)
Definition service_tags (svcs : list (string * string)) : list (string * string) :=
  map (fun e => (fst e, extract_image_tag (snd e))) svcs.

(** The node that the search meets for a service, with its path. *)
Definition service_node (e : string * string) : Walk.node :=
  (SStr ("services." ++ fst e), [(SStr "image", VScalar (SStr (snd e)))]).

(** The entry that the search writes for a service. *)
Definition raw_entry (e : string * string) : scalar * string :=
  (SStr ("services." ++ fst e), extract_image_tag (snd e)).

End Compose.

(* ================================================================= *)
(** ** Counting what is stored *)

Module Accounting.
Import Collector.

(** The fetch of a candidate gives nothing to analyse: line 243. *)
Definition failed_fetch (get_file_content : Z -> string -> option string)
    (pid : Z) (yf : file_entry) : bool :=
  match get_file_content pid (f_path yf) with
  | None => true
  | Some content => content =? ""
  end.

(** The sum of a measure over the values of a dictionary. *)
Definition total {K V : Type} (f : V -> nat) (d : list (K * V)) : nat :=
  fold_right (fun e n => f (snd e) + n) 0 d.

(** The services stored for one project. *)
Definition services_in (ps : manifest_map) : nat :=
  total (fun m : norm_map => List.length m) ps.

(** The manifests and the services stored in the results. *)
Definition stored_manifests (r : result_map) : nat :=
  total (fun ps : manifest_map => List.length ps) r.
Definition stored_services (r : result_map) : nat := total services_in r.

(** No counter went down, and the number of listed projects is the same. *)
Definition grown (st st' : stats) : Prop :=
  total_projects st' = total_projects st
  /\ projects_with_yaml st <= projects_with_yaml st'
  /\ total_yaml_files st <= total_yaml_files st'
  /\ total_services st <= total_services st'
  /\ errors st <= errors st'.

(** No project without a manifest, no manifest without a service. *)
Definition filled_manifests (ps : manifest_map) : Prop :=
  Forall (fun e => snd e <> []) ps.
Definition filled (r : result_map) : Prop :=
  Forall (fun e => snd e <> [] /\ filled_manifests (snd e)) r.

(** The counters cover what is stored. *)
Definition covered (c : collector) : Prop :=
  List.length (results c) <= projects_with_yaml (stats_of c)
  /\ stored_manifests (results c) <= total_yaml_files (stats_of c)
  /\ stored_services (results c) <= total_services (stats_of c).

(** What the loop over [yaml_files] keeps, from the state [st0] in which
    it starts with an empty [project_services]. *)
Definition loop_invariant (st0 : stats) (ps : manifest_map) (st : stats) : Prop :=
  grown st0 st
  /\ projects_with_yaml st = projects_with_yaml st0
  /\ filled_manifests ps
  /\ List.length ps + total_yaml_files st0 <= total_yaml_files st
  /\ services_in ps + total_services st0 <= total_services st.

End Accounting.

(* ================================================================= *)
(** ** More scenarios *)

Module Cases.
Import PyStr YAMLAnalyzer Transport Collector.

(** A session that answers 200 at once. *)
Definition always_ok : nat -> reply unit :=
  fun _ => Resp (mkResponse 200%Z tt false).

(** A session that times out once, then answers 200. *)
Definition slow_start : nat -> reply unit :=
  fun attempt =>
    match attempt with
    | 0 => Timeout
    | _ => Resp (mkResponse 200%Z tt false)
    end.

(** A session that answers 404. *)
Definition not_found : nat -> reply unit :=
  fun _ => Resp (mkResponse 404%Z tt false).

(** A listing that never ends: every page holds one project and the
    link to a next page. *)
Definition endless_server : nat -> nat -> reply (list project) :=
  fun _ _ => Resp (mkResponse 200%Z [mkProject 1%Z "p"] true).

(** The matches of a text with two lines [image: ...] and one block
    [web:] / [image: ...]: two matches of the first pattern, one of the
    fourth. *)
Definition two_image_lines : nat -> string -> list (list string) :=
  fun pattern _ =>
    match pattern with
    | 0 => [["nginx:1.21"]; ["redis:7"]]
    | 3 => [["web"; "nginx:1.21"]]
    | _ => []
    end.

(** A platform on which every file is empty. *)
Definition empty_texts : Z -> string -> option string := fun _ _ => Some "".

(** A platform that answers 403 for every file tree and 404 for every
    file. *)
Definition forbidden_tree : Client.request -> nat -> reply (list file_entry) :=
  fun _ _ => Resp (mkResponse 403%Z [] false).
Definition no_file : Client.request -> nat -> reply string :=
  fun _ _ => Resp (mkResponse 404%Z "" false).

(** A platform on which the request for a file tree times out once and is
    then answered 403. *)
Definition late_forbidden : Client.request -> nat -> reply (list file_entry) :=
  fun _ attempt =>
    match attempt with
    | 0 => Timeout
    | _ => Resp (mkResponse 403%Z [] false)
    end.

(** [{services: [{image: "a:1"}, {image: "b:2", build: {image: "c:3"}}],
      web: {image: "d:4"}}]: three mappings with an image are reached, a
    fourth one lies below [build]. *)
Definition mixed_doc : pyval :=
  VDict [(SStr "services",
          VList [VDict [Scenario.image "a:1"];
                 VDict [Scenario.image "b:2";
                        (SStr "build", VDict [Scenario.image "c:3"])]]);
         (SStr "web", VDict [Scenario.image "d:4"])].

(** [{a: {image: "x:1"}, "": {image: "y:2", name: []}, c: {image: "z:3"}}]:
    the second of three services is named by a list, which is not
    hashable. *)
Definition stop_doc : pyval :=
  VDict [(SStr "a", VDict [Scenario.image "x:1"]);
         (SStr "", VDict [Scenario.image "y:2"; (SStr "name", VList [])]);
         (SStr "c", VDict [Scenario.image "z:3"])].

(** A service name with a line break between its brackets, as the quoted
    YAML key ["a[\n]b"] gives it, and a document that uses it:
    [{"a[\n]b": {image: "x:1"}}]. *)
Definition bracket_key : string := ("a[" ++ String newline "]b")%string.
Definition bracket_doc : pyval :=
  VDict [(SStr bracket_key, VDict [Scenario.image "x:1"])].

End Cases.

(* ----------------------------------------------------------------- *)
(** ** Bracket artifacts, in the words of the specification *)

Module Wording.

(** The string holds a bracketed part: an opening bracket and, somewhere
    after it, a closing one. *)
Definition bracketed (s : string) : Prop :=
  exists u v w, s = (u ++ "[" ++ v ++ "]" ++ w)%string.

End Wording.

(* ================================================================= *)
(** * Properties *)

(* ----------------------------------------------------------------- *)
(** ** Facts on strings *)

#[local] Arguments Ascii.eqb : simpl never.
#[local] Arguments String.eqb : simpl never.

Section StringFacts.
Import PyStr YAMLAnalyzer Shape.

Lemma all_chars_drop p n s :
  all_chars p s = true -> all_chars p (drop n s) = true.
Proof.
  revert s; induction n as [|n IH]; intros [|c r]; simpl; auto.
  intros H; apply andb_prop in H as [_ H]; auto.
Qed.

Lemma all_chars_lstrip p q s :
  all_chars p s = true -> all_chars p (lstrip_by q s) = true.
Proof.
  induction s as [|c r IH]; simpl; auto.
  intros H. destruct (q c); simpl; auto.
  apply andb_prop in H as [_ H]; auto.
Qed.

Lemma all_chars_rstrip p q s :
  all_chars p s = true -> all_chars p (rstrip_by q s) = true.
Proof.
  induction s as [|c r IH]; simpl; auto.
  intros H; apply andb_prop in H as [Hc H]. specialize (IH H).
  destruct (rstrip_by q r) as [|c' r'].
  - destruct (q c); simpl; auto. now rewrite Hc.
  - change (p c && all_chars p (String c' r') = true). now rewrite Hc, IH.
Qed.

Lemma all_chars_sub_brackets p b s :
  all_chars p s = true -> all_chars p (sub_brackets b s) = true.
Proof.
  revert b; induction s as [|c r IH]; intros b; simpl; auto.
  intros H; apply andb_prop in H as [Hc H].
  destruct b.
  - destruct (Ascii.eqb c "]"); auto.
  - destruct (Ascii.eqb c "[" && closes r); simpl; auto.
    now rewrite Hc, IH.
Qed.

Lemma sub_underscores_cons c r :
  sub_underscores (String c r) =
  if Ascii.eqb c "_" && startswith "_" r then sub_underscores r
  else String c (sub_underscores r).
Proof.
  destruct r as [|c' r']; simpl.
  - destruct (Ascii.eqb c "_"); reflexivity.
  - rewrite andb_true_r, (Ascii.eqb_sym "_" c').
    destruct (Ascii.eqb c "_"), (Ascii.eqb c' "_"); reflexivity.
Qed.

Lemma all_chars_sub_underscores p s :
  all_chars p s = true -> all_chars p (sub_underscores s) = true.
Proof.
  induction s as [|c r IH]; [reflexivity|].
  rewrite sub_underscores_cons.
  intros H; simpl in H; apply andb_prop in H as [Hc H]. specialize (IH H).
  destruct (Ascii.eqb c "_" && startswith "_" r); auto.
  simpl. now rewrite Hc, IH.
Qed.

Lemma replace_char_unfold a b c r :
  replace (String a "") (String b "") (String c r) =
  String (if Ascii.eqb a c then b else c) (replace (String a "") (String b "") r).
Proof.
  unfold replace; simpl. destruct (Ascii.eqb a c); reflexivity.
Qed.

Lemma all_chars_replace_char p a b s :
  p b = true -> all_chars p s = true ->
  all_chars p (replace (String a "") (String b "") s) = true.
Proof.
  intros Hb. induction s as [|c r IH]; [reflexivity|].
  rewrite replace_char_unfold. simpl.
  intros H; apply andb_prop in H as [Hc H].
  rewrite (IH H). destruct (Ascii.eqb a c); now rewrite ?Hb, ?Hc.
Qed.

Lemma replace_char_removes a b s :
  a <> b -> all_chars (is_not a) (replace (String a "") (String b "") s) = true.
Proof.
  intros Hab. induction s as [|c r IH]; [reflexivity|].
  rewrite replace_char_unfold. simpl. rewrite IH, andb_true_r.
  unfold is_not. destruct (Ascii.eqb_spec a c) as [->|Hac].
  - apply negb_true_iff, Ascii.eqb_neq. congruence.
  - apply negb_true_iff, Ascii.eqb_neq. congruence.
Qed.

Lemma replace_char_id a b s :
  all_chars (is_not a) s = true -> replace (String a "") (String b "") s = s.
Proof.
  induction s as [|c r IH]; [reflexivity|].
  rewrite replace_char_unfold. simpl.
  intros H; apply andb_prop in H as [Hc H]. rewrite (IH H).
  unfold is_not in Hc. apply negb_true_iff in Hc.
  rewrite Ascii.eqb_sym, Hc. reflexivity.
Qed.

Lemma all_chars_not_contains a s :
  all_chars (is_not a) s = true -> contains (String a "") s = false.
Proof.
  induction s as [|c r IH]; [reflexivity|]. simpl.
  intros H; apply andb_prop in H as [Hc H]. rewrite (IH H).
  unfold is_not in Hc. apply negb_true_iff in Hc.
  rewrite Ascii.eqb_sym, Hc. reflexivity.
Qed.

End StringFacts.

Section NormalizerFacts.
Import PyStr YAMLAnalyzer Shape.

Lemma startswith_char a s :
  startswith (String a "") s =
  match s with String c _ => Ascii.eqb a c | EmptyString => false end.
Proof. destruct s; simpl; [reflexivity | apply andb_true_r]. Qed.

(** *** Runs of underscores *)

Lemma startswith_sub_underscores s :
  startswith "_" (sub_underscores s) = startswith "_" s.
Proof.
  induction s as [|c r IH]; [reflexivity|].
  rewrite sub_underscores_cons.
  destruct (Ascii.eqb c "_" && startswith "_" r) eqn:E.
  - apply andb_prop in E as [Hc Hr].
    rewrite IH, Hr, startswith_char, Ascii.eqb_sym. now rewrite Hc.
  - now rewrite !startswith_char.
Qed.

Lemma no_double_cons c r :
  no_double_underscore (String c r) =
  negb (Ascii.eqb c "_" && startswith "_" r) && no_double_underscore r.
Proof. reflexivity. Qed.

Lemma no_double_sub_underscores s :
  no_double_underscore (sub_underscores s) = true.
Proof.
  induction s as [|c r IH]; [reflexivity|].
  rewrite sub_underscores_cons.
  destruct (Ascii.eqb c "_" && startswith "_" r) eqn:E; [exact IH|].
  now rewrite no_double_cons, startswith_sub_underscores, E, IH.
Qed.

Lemma no_double_tail c r :
  no_double_underscore (String c r) = true -> no_double_underscore r = true.
Proof. rewrite no_double_cons. intros H; now apply andb_prop in H. Qed.

Lemma no_double_lstrip q s :
  no_double_underscore s = true -> no_double_underscore (lstrip_by q s) = true.
Proof.
  induction s as [|c r IH]; [reflexivity|].
  intros H. simpl. destruct (q c); [|exact H].
  apply IH. now apply no_double_tail in H.
Qed.

Lemma rstrip_cons q c r :
  rstrip_by q (String c r) =
  match rstrip_by q r with
  | EmptyString => if q c then EmptyString else String c EmptyString
  | r' => String c r'
  end.
Proof. reflexivity. Qed.

Lemma rstrip_head q s c' r' :
  rstrip_by q s = String c' r' -> exists t, s = String c' t.
Proof.
  destruct s as [|c r]; [discriminate|].
  rewrite rstrip_cons. destruct (rstrip_by q r).
  - destruct (q c); [discriminate|]. intros [= <- _]. now exists r.
  - intros [= <- _]. now exists r.
Qed.

Lemma no_double_rstrip q s :
  no_double_underscore s = true -> no_double_underscore (rstrip_by q s) = true.
Proof.
  induction s as [|c r IH]; [reflexivity|].
  intros H. rewrite rstrip_cons.
  pose proof (no_double_tail _ _ H) as Hr. specialize (IH Hr).
  destruct (rstrip_by q r) as [|c' r'] eqn:E.
  - destruct (q c); [reflexivity|].
    rewrite no_double_cons. simpl. now rewrite andb_false_r.
  - destruct (rstrip_head _ _ _ _ E) as [t ->].
    rewrite no_double_cons in H |- *.
    apply andb_prop in H as [H1 _]. rewrite !startswith_char in *.
    now rewrite H1, IH.
Qed.

Lemma no_double_not_contains s :
  no_double_underscore s = true -> contains "__" s = false.
Proof.
  induction s as [|c r IH]; [reflexivity|].
  intros H. pose proof (no_double_tail _ _ H) as Hr.
  rewrite no_double_cons in H. apply andb_prop in H as [H _].
  apply negb_true_iff in H.
  cbn [contains]. rewrite (IH Hr), orb_false_r.
  change (startswith "__" (String c r)) with (Ascii.eqb "_" c && startswith "_" r).
  now rewrite Ascii.eqb_sym.
Qed.

Lemma sub_underscores_id s :
  no_double_underscore s = true -> sub_underscores s = s.
Proof.
  induction s as [|c r IH]; [reflexivity|].
  intros H. pose proof (no_double_tail _ _ H) as Hr.
  rewrite sub_underscores_cons. rewrite no_double_cons in H.
  apply andb_prop in H as [H _]. apply negb_true_iff in H.
  now rewrite H, (IH Hr).
Qed.

(** *** Bracketed groups *)

Lemma closes_cons c r :
  closes (String c r) =
  if Ascii.eqb c "]" then true else if Ascii.eqb c newline then false else closes r.
Proof. reflexivity. Qed.

Lemma closes_sub_brackets r :
  closes r = false -> closes (sub_brackets false r) = false.
Proof.
  induction r as [|c r IH]; [reflexivity|].
  rewrite closes_cons. simpl sub_brackets.
  destruct (Ascii.eqb c "]") eqn:E1; [discriminate|].
  destruct (Ascii.eqb c newline) eqn:E2.
  - intros _. destruct (Ascii.eqb c "[" && closes r) eqn:E3.
    + apply andb_prop in E3 as [E3 _]. apply Ascii.eqb_eq in E3, E2.
      subst c. discriminate.
    + now rewrite closes_cons, E1, E2.
  - intros H. rewrite H, andb_false_r, closes_cons, E1, E2. auto.
Qed.

Lemma no_group_sub_brackets b s :
  no_bracket_group (sub_brackets b s) = true.
Proof.
  revert b; induction s as [|c r IH]; intros b; [reflexivity|].
  simpl sub_brackets. destruct b.
  - destruct (Ascii.eqb c "]"); apply IH.
  - destruct (Ascii.eqb c "[" && closes r) eqn:E; [apply IH|].
    simpl. rewrite IH, andb_true_r. apply negb_true_iff.
    apply andb_false_iff in E as [E|E]; [now rewrite E|].
    now rewrite (closes_sub_brackets _ E), andb_false_r.
Qed.

Lemma no_group_tail c r :
  no_bracket_group (String c r) = true -> no_bracket_group r = true.
Proof. simpl. intros H; now apply andb_prop in H. Qed.

Lemma sub_brackets_id s :
  no_bracket_group s = true -> sub_brackets false s = s.
Proof.
  induction s as [|c r IH]; [reflexivity|].
  intros H. pose proof (no_group_tail _ _ H) as Hr.
  simpl in H |- *. apply andb_prop in H as [H _]. apply negb_true_iff in H.
  now rewrite H, (IH Hr).
Qed.

(** Taking underscores away does not change what [closes] sees. *)
Lemma underscore_keeps_brackets : keeps_brackets (Ascii.eqb "_").
Proof.
  intros c H. apply Ascii.eqb_eq in H. subst c. split; reflexivity.
Qed.

Lemma closes_sub_underscores s : closes (sub_underscores s) = closes s.
Proof.
  induction s as [|c r IH]; [reflexivity|].
  rewrite sub_underscores_cons.
  destruct (Ascii.eqb c "_" && startswith "_" r) eqn:E.
  - apply andb_prop in E as [E _]. apply Ascii.eqb_eq in E. subst c.
    rewrite IH. reflexivity.
  - now rewrite !closes_cons, IH.
Qed.

Lemma closes_lstrip q s :
  keeps_brackets q -> closes (lstrip_by q s) = closes s.
Proof.
  intros Hq. induction s as [|c r IH]; [reflexivity|].
  simpl lstrip_by. destruct (q c) eqn:E; [|reflexivity].
  destruct (Hq _ E) as [E1 E2]. now rewrite IH, closes_cons, E1, E2.
Qed.

Lemma closes_rstrip q s :
  keeps_brackets q -> closes (rstrip_by q s) = closes s.
Proof.
  intros Hq. induction s as [|c r IH]; [reflexivity|].
  rewrite rstrip_cons. destruct (rstrip_by q r) as [|c' r'].
  - rewrite (closes_cons c r), <- IH. destruct (q c) eqn:E.
    + destruct (Hq _ E) as [E1 E2]. now rewrite E1, E2.
    + reflexivity.
  - now rewrite (closes_cons c r), <- IH.
Qed.

Lemma no_group_sub_underscores s :
  no_bracket_group s = true -> no_bracket_group (sub_underscores s) = true.
Proof.
  induction s as [|c r IH]; [reflexivity|].
  intros H. pose proof (no_group_tail _ _ H) as Hr.
  rewrite sub_underscores_cons.
  destruct (Ascii.eqb c "_" && startswith "_" r); [auto|].
  simpl in H |- *. apply andb_prop in H as [H _].
  now rewrite closes_sub_underscores, H, IH.
Qed.

Lemma no_group_lstrip q s :
  no_bracket_group s = true -> no_bracket_group (lstrip_by q s) = true.
Proof.
  induction s as [|c r IH]; [reflexivity|].
  intros H. simpl. destruct (q c); [|exact H].
  apply IH. now apply no_group_tail in H.
Qed.

Lemma no_group_rstrip q s :
  keeps_brackets q ->
  no_bracket_group s = true -> no_bracket_group (rstrip_by q s) = true.
Proof.
  intros Hq. induction s as [|c r IH]; [reflexivity|].
  intros H. pose proof (no_group_tail _ _ H) as Hr. specialize (IH Hr).
  pose proof (closes_rstrip q r Hq) as Hc.
  rewrite rstrip_cons. destruct (rstrip_by q r) as [|c' r'].
  - destruct (q c); [reflexivity|]. simpl. now rewrite andb_false_r.
  - simpl in H. apply andb_prop in H as [H _].
    change (negb (Ascii.eqb c "[" && closes (String c' r'))
            && no_bracket_group (String c' r') = true).
    now rewrite Hc, H, IH.
Qed.

Lemma closes_one_line v w :
  one_line v = true -> closes (v ++ String "]" w) = true.
Proof.
  induction v as [|c v IH]; [reflexivity|].
  unfold one_line. simpl. intros H. apply andb_prop in H as [H1 H2].
  unfold is_not in H1. apply negb_true_iff in H1. rewrite H1.
  destruct (Ascii.eqb c "]"); [reflexivity|]. now apply IH.
Qed.

Lemma no_group_spec s :
  no_bracket_group s = true ->
  forall u v w : string, s = (u ++ "[" ++ v ++ "]" ++ w)%string -> one_line v = false.
Proof.
  intros H u; revert s H. induction u as [|c u IH]; intros s H v w ->.
  - simpl in H. apply andb_prop in H as [H _]. apply negb_true_iff in H.
    destruct (one_line v) eqn:E; [|reflexivity].
    change ("[" ++ v ++ "]" ++ w)%string with (String "[" (v ++ String "]" w)) in H.
    now rewrite (closes_one_line v w E) in H.
  - apply (IH _ (no_group_tail _ _ H) v w). reflexivity.
Qed.

End NormalizerFacts.

Section NormalizeShape.
Import PyStr YAMLAnalyzer Shape.

(** *** The ends of a stripped string *)

Lemma lstrip_head q s c r : lstrip_by q s = String c r -> q c = false.
Proof.
  induction s as [|c' r' IH]; [discriminate|].
  simpl. destruct (q c') eqn:E; [exact IH|].
  intros [= <- _]. exact E.
Qed.

Lemma rstrip_keeps_head q c r :
  q c = false -> exists r', rstrip_by q (String c r) = String c r'.
Proof.
  intros E. rewrite rstrip_cons. destruct (rstrip_by q r) as [|c' r'].
  - rewrite E. now exists "".
  - now exists (String c' r').
Qed.

Lemma strip_char_start a s : startswith (String a "") (strip_char a s) = false.
Proof.
  unfold strip_char, strip_by.
  destruct (lstrip_by (Ascii.eqb a) s) as [|c r] eqn:E; [reflexivity|].
  apply lstrip_head in E.
  destruct (rstrip_keeps_head _ c r E) as [r' ->].
  now rewrite startswith_char.
Qed.

Lemma endswith_cons p c r :
  endswith p (String c r) = (String c r =? p) || endswith p r.
Proof. reflexivity. Qed.

Lemma rstrip_end a s : endswith (String a "") (rstrip_by (Ascii.eqb a) s) = false.
Proof.
  induction s as [|c r IH]; [reflexivity|].
  rewrite rstrip_cons. destruct (rstrip_by (Ascii.eqb a) r) as [|c' r'].
  - destruct (Ascii.eqb a c) eqn:E; [reflexivity|].
    rewrite endswith_cons. apply orb_false_iff. split; [|reflexivity].
    apply String.eqb_neq. intros [= ->]. now rewrite Ascii.eqb_refl in E.
  - rewrite endswith_cons, IH, orb_false_r.
    apply String.eqb_neq. discriminate.
Qed.

Lemma strip_char_end a s : endswith (String a "") (strip_char a s) = false.
Proof. apply rstrip_end. Qed.

Lemma lstrip_id a s :
  startswith (String a "") s = false -> lstrip_by (Ascii.eqb a) s = s.
Proof.
  rewrite startswith_char. destruct s as [|c r]; [reflexivity|].
  simpl. now intros ->.
Qed.

Lemma rstrip_id a s :
  endswith (String a "") s = false -> rstrip_by (Ascii.eqb a) s = s.
Proof.
  induction s as [|c r IH]; [reflexivity|].
  rewrite endswith_cons. intros H. apply orb_false_iff in H as [H1 H2].
  rewrite rstrip_cons, (IH H2). destruct r as [|c' r']; [|reflexivity].
  destruct (Ascii.eqb_spec a c) as [->|Hne]; [|reflexivity].
  now rewrite String.eqb_refl in H1.
Qed.

Lemma strip_char_id a s :
  startswith (String a "") s = false -> endswith (String a "") s = false ->
  strip_char a s = s.
Proof.
  intros H1 H2. unfold strip_char, strip_by. now rewrite (lstrip_id _ _ H1), rstrip_id.
Qed.

(** *** Lengths *)

Lemma length_lstrip q s : String.length (lstrip_by q s) <= String.length s.
Proof.
  induction s as [|c r IH]; simpl; [lia|]. destruct (q c); simpl; lia.
Qed.

Lemma length_rstrip q s : String.length (rstrip_by q s) <= String.length s.
Proof.
  induction s as [|c r IH]; [simpl; lia|].
  rewrite rstrip_cons. destruct (rstrip_by q r).
  - destruct (q c); simpl; lia.
  - simpl in *. lia.
Qed.

Lemma length_sub_brackets b s :
  String.length (sub_brackets b s) <= String.length s.
Proof.
  revert b; induction s as [|c r IH]; intros b; simpl; [lia|].
  destruct b.
  - destruct (Ascii.eqb c "]"); [specialize (IH false)|specialize (IH true)]; lia.
  - destruct (Ascii.eqb c "[" && closes r);
      [specialize (IH true)|specialize (IH false)]; simpl; lia.
Qed.

Lemma length_sub_underscores s :
  String.length (sub_underscores s) <= String.length s.
Proof.
  induction s as [|c r IH]; [simpl; lia|].
  rewrite sub_underscores_cons.
  destruct (Ascii.eqb c "_" && startswith "_" r); simpl; lia.
Qed.

Lemma length_drop_prefix p s :
  startswith p s = true ->
  String.length (drop (String.length p) s) + String.length p = String.length s.
Proof.
  revert s; induction p as [|a p IH]; intros s; [simpl; lia|].
  destruct s as [|c r]; [discriminate|]. simpl.
  intros H; apply andb_prop in H as [_ H]. specialize (IH _ H). lia.
Qed.

(** *** What [normalize_service_name] returns *)

Lemma all_chars_strip_services_prefix p s :
  all_chars p s = true -> all_chars p (strip_services_prefix s) = true.
Proof.
  intros H. unfold strip_services_prefix.
  destruct (startswith "services_" s); [now apply all_chars_drop | exact H].
Qed.

Lemma normalize_shaped x : shaped (normalize_service_name x).
Proof.
  unfold normalize_service_name.
  destruct (x =? ""); [now repeat split|].
  unfold strip_char, strip_by. repeat split.
  - apply all_chars_rstrip, all_chars_lstrip, all_chars_sub_underscores,
      all_chars_sub_brackets, all_chars_strip_services_prefix,
      all_chars_replace_char; [reflexivity|].
    apply replace_char_removes. discriminate.
  - apply all_chars_rstrip, all_chars_lstrip, all_chars_sub_underscores,
      all_chars_sub_brackets, all_chars_strip_services_prefix.
    apply replace_char_removes. discriminate.
  - apply no_group_rstrip; [apply underscore_keeps_brackets|].
    apply no_group_lstrip, no_group_sub_underscores, no_group_sub_brackets.
  - apply no_double_rstrip, no_double_lstrip, no_double_sub_underscores.
  - apply (strip_char_start "_").
  - apply (strip_char_end "_").
Qed.

Lemma shaped_normal y : shaped y -> normal_name y.
Proof.
  intros (H1 & H2 & H3 & H4 & H5 & H6). repeat split; auto.
  - now apply all_chars_not_contains.
  - now apply all_chars_not_contains.
  - now apply no_group_spec.
  - now apply no_double_not_contains.
Qed.

Lemma normalize_normal x : normal_name (normalize_service_name x).
Proof. apply shaped_normal, normalize_shaped. Qed.

(** A shaped name without the prefix is left as it is. *)
Lemma normalize_shaped_id y :
  shaped y -> startswith "services_" y = false -> normalize_service_name y = y.
Proof.
  intros (H1 & H2 & H3 & H4 & H5 & H6) Hp. unfold normalize_service_name.
  destruct (String.eqb_spec y "") as [->|_]; [reflexivity|].
  rewrite (replace_char_id "-" "_" y H1), (replace_char_id "." "_" y H2).
  unfold strip_services_prefix. rewrite Hp.
  rewrite (sub_brackets_id _ H3), (sub_underscores_id _ H4).
  now apply strip_char_id.
Qed.

(** A shaped name with the prefix gets shorter. *)
Lemma normalize_shaped_shorter y :
  shaped y -> startswith "services_" y = true ->
  String.length (normalize_service_name y) < String.length y.
Proof.
  intros (H1 & H2 & _) Hp. unfold normalize_service_name.
  destruct (String.eqb_spec y "") as [->|_]; [discriminate|].
  rewrite (replace_char_id "-" "_" y H1), (replace_char_id "." "_" y H2).
  unfold strip_services_prefix. rewrite Hp.
  pose proof (length_drop_prefix "services_" y Hp) as L.
  change (String.length "services_") with 9 in L.
  unfold strip_char, strip_by.
  pose proof (length_rstrip (Ascii.eqb "_")
    (lstrip_by (Ascii.eqb "_") (sub_underscores (sub_brackets false (drop 9 y))))).
  pose proof (length_lstrip (Ascii.eqb "_")
    (sub_underscores (sub_brackets false (drop 9 y)))).
  pose proof (length_sub_underscores (sub_brackets false (drop 9 y))).
  pose proof (length_sub_brackets false (drop 9 y)).
  lia.
Qed.

End NormalizeShape.

Example normalize_service_path :
  YAMLAnalyzer.normalize_service_name "services.api-gateway[0].web__v2_" = "api_gateway_web_v2".
Proof. reflexivity. Qed.

(** A bracket that closes on a later line is not a match of the pattern
    of line 202 and stays. *)
Example normalize_bracket_over_lines :
  YAMLAnalyzer.normalize_service_name
    ("a[" ++ String YAMLAnalyzer.newline "]b")
  = ("a[" ++ String YAMLAnalyzer.newline "]b")%string.
Proof. reflexivity. Qed.

(** C3 (as amended): normalising twice gives the same name as normalising
    once exactly when the normalised name does not itself start with
    ['services_']; the prefix is taken off once per call. *)
Theorem normalize_idempotent_iff (x : string) :
  YAMLAnalyzer.normalize_service_name (YAMLAnalyzer.normalize_service_name x)
    = YAMLAnalyzer.normalize_service_name x
  <-> PyStr.startswith "services_" (YAMLAnalyzer.normalize_service_name x) = false.
Proof.
  pose proof (normalize_shaped x) as Hs. split.
  - intros H.
    destruct (PyStr.startswith "services_" (YAMLAnalyzer.normalize_service_name x)) eqn:E;
      [|reflexivity].
    pose proof (normalize_shaped_shorter _ Hs E) as L. rewrite H in L. lia.
  - intros H. now apply normalize_shaped_id.
Qed.

(** C3, a name on which the specification fails: the second call takes off the
    prefix that the first call uncovered. *)
Lemma normalize_not_idempotent :
  YAMLAnalyzer.normalize_service_name
    (YAMLAnalyzer.normalize_service_name "services_services_api")
  <> YAMLAnalyzer.normalize_service_name "services_services_api".
Proof. vm_compute. discriminate. Qed.

(* ----------------------------------------------------------------- *)
(** ** extract_image_tag *)

Section ExtractImageTag.
Import PyStr YAMLAnalyzer.

Lemma endswith_tail p c s : endswith p s = true -> endswith p (String c s) = true.
Proof. intros H. rewrite endswith_cons, H. apply orb_true_r. Qed.

Lemma endswith_two_braces tag : endswith "}}" tag = true -> endswith "}" tag = true.
Proof.
  induction tag as [|c r IH]; [discriminate|].
  rewrite endswith_cons. intros H. apply orb_prop in H as [H|H].
  - apply String.eqb_eq in H. rewrite H. reflexivity.
  - apply endswith_tail. auto.
Qed.

Lemma startswith_two_braces tag :
  startswith "${{" tag = true -> startswith "${" tag = true.
Proof.
  destruct tag as [|a [|b r]]; simpl; intros H.
  - discriminate.
  - now rewrite andb_false_r in H.
  - apply andb_prop in H as [Ha H]. apply andb_prop in H as [Hb _].
    now rewrite Ha, Hb.
Qed.

(** The test of line 139 holds whenever the test of line 141 would: the
    branch of line 142 is never taken. *)
Lemma double_brace_branch_unreachable tag :
  startswith "${{" tag = true -> endswith "}}" tag = true ->
  startswith "${" tag && endswith "}" tag = true.
Proof.
  intros H1 H2.
  now rewrite (startswith_two_braces _ H1), (endswith_two_braces _ H2).
Qed.

(** What the function computes: the part after the last colon of the
    trimmed string, without the first two and the last characters when it
    starts with ['${'] and ends with ['}']. *)
Lemma extract_image_tag_eq s :
  extract_image_tag s =
  let t := strip s in
  if contains ":" t then
    let tag := last (split_char ":" t) "" in
    if startswith "${" tag && endswith "}" tag then slice 2 1 tag else tag
  else t.
Proof.
  unfold extract_image_tag.
  destruct (String.eqb_spec s "") as [->|_]; [reflexivity|]. cbv zeta.
  destruct (contains ":" (strip s)); [|reflexivity].
  destruct (startswith "${" _ && endswith "}" _) eqn:E; [reflexivity|].
  destruct (startswith "${{" _ && endswith "}}" _) eqn:E2; [|reflexivity].
  apply andb_prop in E2 as [E2 E3].
  now rewrite (double_brace_branch_unreachable _ E2 E3) in E.
Qed.

Lemma extract_image_tag_no_colon s :
  contains ":" (strip s) = false -> extract_image_tag s = strip s.
Proof. intros H. rewrite extract_image_tag_eq. cbv zeta. now rewrite H. Qed.

End ExtractImageTag.

Example extract_image_tag_plain :
  YAMLAnalyzer.extract_image_tag "registry:5000/nginx:1.21" = "1.21".
Proof. reflexivity. Qed.

Example extract_image_tag_single_brace :
  YAMLAnalyzer.extract_image_tag " app:${TAG} " = "TAG".
Proof. reflexivity. Qed.

Example extract_image_tag_untagged :
  YAMLAnalyzer.extract_image_tag "  nginx " = "nginx".
Proof. reflexivity. Qed.

(** C1, at the input on which the code and the specification part: a tag wrapped
    in [${{...}}] also starts with ['${'] and ends with ['}'], the first
    test takes it, and two characters and one are taken off, not three and
    two. *)
Theorem extract_image_tag_double_brace :
  YAMLAnalyzer.extract_image_tag "nginx:${{TAG}}" = "{TAG}"
  /\ YAMLAnalyzer.extract_image_tag "nginx:${{TAG}}" <> "TAG".
Proof. split; [reflexivity | vm_compute; discriminate]. Qed.

(* ----------------------------------------------------------------- *)
(** ** make_request *)

Section MakeRequestFacts.
Import Transport.
Context {B : Type}.

(** A response with status 429 is false as a condition. *)
Lemma requests_bool_429 (r : response B) :
  status_code r = 429%Z -> requests_bool r = false.
Proof. unfold requests_bool. now intros ->. Qed.

(** With the truth value that [requests] gives a response, the test of
    line 44 never holds. *)
Lemma rate_limit_branch_unreachable (r : response B) :
  requests_bool r && (status_code r =? 429)%Z = false.
Proof.
  destruct (Z.eqb_spec (status_code r) 429) as [E|_].
  - now rewrite (requests_bool_429 r E).
  - apply andb_false_r.
Qed.

(** A response that is neither 200 nor 429 ends the call at once: one
    call on the session, no sleep, no result. *)
Lemma make_request_other_status (truth : response B -> bool)
    (session : nat -> reply B) (r : response B) :
  session 0 = Resp r ->
  status_code r <> 200%Z -> status_code r <> 429%Z ->
  make_request truth session = mkLog None [] 1.
Proof.
  intros Hs H200 H429. unfold make_request, max_retries. simpl. rewrite Hs.
  apply Z.eqb_neq in H200, H429. now rewrite H200, H429, !andb_false_r.
Qed.

(** Another exception than a timeout ends the call at once as well. *)
Lemma make_request_fault (truth : response B -> bool) (session : nat -> reply B) :
  session 0 = Fault -> make_request truth session = mkLog None [] 1.
Proof. intros Hs. unfold make_request, max_retries. simpl. now rewrite Hs. Qed.

(** A first response with status 200 is returned. *)
Lemma make_request_ok (truth : response B -> bool)
    (session : nat -> reply B) (r : response B) :
  session 0 = Resp r -> truth r = true -> status_code r = 200%Z ->
  make_request truth session = mkLog (Some r) [] 1.
Proof.
  intros Hs Ht H200. unfold make_request, max_retries. simpl.
  now rewrite Hs, Ht, H200.
Qed.

(** What comes back is a response with status 200. *)
Lemma attempts_result_200 (truth : response B -> bool)
    (session : nat -> reply B) n a r :
  result (attempts truth session n a) = Some r -> status_code r = 200%Z.
Proof.
  revert a; induction n as [|n IH]; intros a; simpl; [discriminate|].
  destruct (session a) as [r'| |]; simpl.
  - destruct (truth r' && (status_code r' =? 200)%Z) eqn:E.
    + simpl. intros [= <-]. apply andb_prop in E as [_ E]. now apply Z.eqb_eq.
    + destruct (truth r' && (status_code r' =? 429)%Z); simpl; [apply IH|discriminate].
  - apply IH.
  - discriminate.
Qed.

End MakeRequestFacts.

(** With response objects that are always true, the two 429 responses are
    waited out for 2 and 4 seconds and the third response is returned. *)
Example make_request_backoff_when_true :
  Transport.make_request Transport.always_true Scenario.rate_limited_twice
  = Transport.mkLog (Some (Transport.mkResponse 200 tt false)) [2; 4]%Z 3.
Proof. reflexivity. Qed.

(** Timeouts are waited out for 1, 2 and 4 seconds, then the call gives up. *)
Example make_request_timeouts :
  Transport.make_request Transport.requests_bool (fun _ => Transport.Timeout (B := unit))
  = Transport.mkLog None [1; 2; 4]%Z 3.
Proof. reflexivity. Qed.

(** C5, at the sequence of section 8: the first 429 response is false as
    a condition, lines 42 and 44 both fail, line 51 returns [None] after one
    call and without any sleep. *)
Theorem make_request_rate_limited_gives_up :
  Transport.make_request Transport.requests_bool Scenario.rate_limited_twice
  = Transport.mkLog None [] 1.
Proof. reflexivity. Qed.

(* ----------------------------------------------------------------- *)
(** ** Facts on dictionaries *)

Section DictFacts.
Import PyDict.
Context {K V : Type}.
Variable eqb : K -> K -> bool.

Lemma set_length_le k (v : V) d :
  List.length (set eqb k v d) <= S (List.length d).
Proof.
  induction d as [|[k' v'] d IH]; simpl; [lia|].
  destruct (eqb k' k); simpl; lia.
Qed.

Lemma set_length_ge k (v : V) d :
  List.length d <= List.length (set eqb k v d).
Proof.
  induction d as [|[k' v'] d IH]; simpl; [lia|].
  destruct (eqb k' k); simpl; lia.
Qed.

Lemma set_length_mem k (v : V) d :
  mem eqb k d = true -> List.length (set eqb k v d) = List.length d.
Proof.
  unfold mem. induction d as [|[k' v'] d IH]; simpl; [discriminate|].
  destruct (eqb k' k); simpl; [reflexivity|]. intros H. now rewrite IH.
Qed.

Lemma set_length_new k (v : V) d :
  mem eqb k d = false -> List.length (set eqb k v d) = S (List.length d).
Proof.
  unfold mem. induction d as [|[k' v'] d IH]; simpl; [reflexivity|].
  destruct (eqb k' k); simpl; [discriminate|]. intros H. now rewrite IH.
Qed.

Lemma Forall_key_set (P : K -> Prop) k (v : V) d :
  Forall (fun e => P (fst e)) d -> P k ->
  Forall (fun e => P (fst e)) (set eqb k v d).
Proof.
  intros Hd Hk. induction d as [|[k' v'] d IH]; simpl.
  - constructor; auto.
  - inversion Hd; subst. destruct (eqb k' k); constructor; auto.
Qed.

Lemma Forall_val_set (Q : V -> Prop) k (v : V) d :
  Forall (fun e => Q (snd e)) d -> Q v ->
  Forall (fun e => Q (snd e)) (set eqb k v d).
Proof.
  intros Hd Hv. induction d as [|[k' v'] d IH]; simpl.
  - constructor; auto.
  - inversion Hd; subst. destruct (eqb k' k); constructor; auto.
Qed.

(** The keys of [set k v d] are those of [d], and [k] when it is new. *)
Lemma keys_set k (v : V) d :
  keys (set eqb k v d) = if mem eqb k d then keys d else keys d ++ [k].
Proof.
  unfold mem, keys. induction d as [|[k' v'] d IH]; simpl; [reflexivity|].
  destruct (eqb k' k); simpl; [reflexivity|]. rewrite IH.
  now destruct (get eqb k d).
Qed.

Hypothesis eqb_refl : forall k, eqb k k = true.

Lemma get_set_same k (v : V) d : get eqb k (set eqb k v d) = Some v.
Proof.
  induction d as [|[k' v'] d IH]; simpl.
  - now rewrite eqb_refl.
  - destruct (eqb k' k) eqn:E; simpl; now rewrite E.
Qed.

Lemma mem_set_same k (v : V) d : mem eqb k (set eqb k v d) = true.
Proof. unfold mem. now rewrite get_set_same. Qed.

Hypothesis eqb_sym : forall a b, eqb a b = eqb b a.
Hypothesis eqb_trans : forall a b c, eqb a b = true -> eqb b c = true -> eqb a c = true.

Lemma get_set_other k k2 (v : V) d :
  eqb k k2 = false -> get eqb k2 (set eqb k v d) = get eqb k2 d.
Proof.
  intros Hne. induction d as [|[k' v'] d IH]; simpl.
  - now rewrite Hne.
  - destruct (eqb k' k) eqn:E; simpl; [|now rewrite IH].
    destruct (eqb k' k2) eqn:E2; [|reflexivity].
    rewrite (eqb_trans k k' k2) in Hne; [discriminate| |exact E2].
    now rewrite eqb_sym.
Qed.

Lemma mem_set_other k k2 (v : V) d :
  eqb k k2 = false -> mem eqb k2 (set eqb k v d) = mem eqb k2 d.
Proof. intros H. unfold mem. now rewrite get_set_other. Qed.

Lemma mem_set_mono k k2 (v : V) d :
  mem eqb k2 d = true -> mem eqb k2 (set eqb k v d) = true.
Proof.
  intros H. destruct (eqb k k2) eqn:E.
  - unfold mem. induction d as [|[k' v'] d IH]; simpl; [now rewrite E|].
    unfold mem in H. simpl in H.
    destruct (eqb k' k) eqn:E1; simpl.
    + rewrite (eqb_trans k' k k2 E1 E). reflexivity.
    + destruct (eqb k' k2); [reflexivity|]. now apply IH.
  - now rewrite mem_set_other.
Qed.

End DictFacts.

Lemma string_eqb_trans a b c :
  String.eqb a b = true -> String.eqb b c = true -> String.eqb a c = true.
Proof. rewrite !String.eqb_eq. congruence. Qed.

(* ----------------------------------------------------------------- *)
(** ** The keys of the stored ServiceMaps *)

Section AnalyzeInvariant.
Import PyStr YAMLAnalyzer Transport Collector Shape Invariant.

Variable get_project_files : Z -> list file_entry.
Variable get_file_content : Z -> string -> option string.
Variable safe_load : string -> load_result.
Variable extract_images_via_regex : string -> list (string * string).

Lemma normalize_key_normal s k : normalize_key s = Returned k -> normal_name k.
Proof.
  unfold normalize_key. destruct (negb (truthy s)).
  - intros [= <-]. apply (normalize_normal "").
  - destruct s; try discriminate. intros [= <-]. apply normalize_normal.
Qed.

Lemma normalized_normal items acc norm :
  normal_keys acc -> normalized items acc = Returned norm -> normal_keys norm.
Proof.
  revert acc; induction items as [|[s t] items IH]; intros acc Hacc; simpl.
  - now intros [= <-].
  - destruct (normalize_key s) as [k|] eqn:E; [|discriminate].
    apply IH. apply Forall_key_set; [exact Hacc|].
    now apply (normalize_key_normal s).
Qed.

Lemma analyze_file_normal pid yf ps st ps' st' :
  normal_manifests ps ->
  analyze_file get_file_content safe_load extract_images_via_regex pid yf ps st
    = (Returned ps', st') ->
  normal_manifests ps'.
Proof.
  intros Hps. unfold analyze_file.
  destruct (get_file_content pid (f_path yf)) as [content|]; [|now intros [= <- _]].
  destruct (content =? ""); [now intros [= <- _]|].
  destruct (find_services_in_yaml _ _ content) as [|e services] eqn:E;
    [now intros [= <- _]|].
  destruct (normalized (e :: services) []) as [norm|] eqn:En; [|discriminate].
  intros [= <- _]. apply Forall_val_set; [exact Hps|].
  apply (normalized_normal (e :: services) [] norm); [constructor | exact En].
Qed.

Lemma analyze_files_normal pid yaml_files ps st ps' st' :
  normal_manifests ps ->
  analyze_files get_file_content safe_load extract_images_via_regex
    pid yaml_files ps st = (Returned ps', st') ->
  normal_manifests ps'.
Proof.
  revert ps st; induction yaml_files as [|yf rest IH]; intros ps st Hps; simpl.
  - now intros [= <- _].
  - destruct (analyze_file _ _ _ pid yf ps st) as [[ps1|] st1] eqn:E; [|discriminate].
    apply IH. now apply (analyze_file_normal _ _ _ _ _ _ Hps E).
Qed.

Lemma analyze_project_normal p st res st' :
  analyze_project get_project_files get_file_content safe_load
    extract_images_via_regex p st = (Returned (Some res), st') ->
  normal_manifests (services res).
Proof.
  unfold analyze_project.
  destruct (get_project_files (p_id p)) as [|f files]; [discriminate|].
  destruct (filter is_candidate (f :: files)) as [|yf yaml_files]; [discriminate|].
  destruct (analyze_files _ _ _ (p_id p) (yf :: yaml_files) [] st)
    as [[ps|] st1] eqn:E; [|discriminate].
  destruct ps as [|e ps]; [discriminate|].
  intros [= <- _]. simpl.
  apply (analyze_files_normal _ _ _ _ _ _ (Forall_nil _) E).
Qed.

End AnalyzeInvariant.

Section CollectInvariant.
Import Transport Collector Invariant.

Variable analyze : project -> stats -> outcome (option project_result) * stats.
Hypothesis analyze_normal :
  forall p st res st', analyze p st = (Returned (Some res), st') ->
  normal_manifests (services res).

Lemma store_normal res st r :
  (forall x, res = Some x -> normal_manifests (services x)) ->
  normal_results r -> normal_results (results (store res st r)).
Proof.
  intros Hres Hr. destruct res as [x|]; simpl; [|exact Hr].
  apply Forall_val_set; auto.
Qed.

Lemma collect_threaded_normal completed c :
  normal_results (results c) ->
  normal_results (results (collect_threaded analyze completed c)).
Proof.
  revert c; induction completed as [|p rest IH]; intros c Hc; simpl; [exact Hc|].
  apply IH. destruct (analyze p (stats_of c)) as [[res|] st] eqn:E; [|exact Hc].
  apply store_normal; [|exact Hc]. intros x ->. exact (analyze_normal _ _ _ _ E).
Qed.

Lemma collect_sequential_normal projects c :
  normal_results (results c) ->
  normal_results (results (snd (collect_sequential analyze projects c))).
Proof.
  revert c; induction projects as [|p rest IH]; intros c Hc; simpl; [exact Hc|].
  destruct (analyze p (stats_of c)) as [[res|] st] eqn:E; [|exact Hc].
  apply IH. apply store_normal; [|exact Hc].
  intros x ->. exact (analyze_normal _ _ _ _ E).
Qed.

Lemma collect_all_services_normal connected projects use_threads completed c :
  normal_results (results c) ->
  normal_results
    (results (snd (collect_all_services analyze connected projects
                     use_threads completed c))).
Proof.
  intros Hc. unfold collect_all_services.
  destruct (negb connected); [exact Hc|].
  destruct projects as [|p projects]; [exact Hc|].
  destruct (use_threads && _).
  - now apply collect_threaded_normal.
  - now apply collect_sequential_normal.
Qed.

End CollectInvariant.




(* ----------------------------------------------------------------- *)
(** ** Raw names, normalised names and the services counter *)

Section NormalizedFacts.
Import PyStr YAMLAnalyzer Transport Collector.

Lemma normalized_app a b acc :
  normalized (a ++ b) acc =
  match normalized a acc with
  | Returned m => normalized b m
  | Raised => Raised
  end.
Proof.
  revert acc; induction a as [|[s t] a IH]; intros acc; simpl; [reflexivity|].
  destruct (normalize_key s); [apply IH | reflexivity].
Qed.

Lemma normalized_length_le items acc norm :
  normalized items acc = Returned norm ->
  List.length norm <= List.length acc + List.length items.
Proof.
  revert acc; induction items as [|[s t] items IH]; intros acc; simpl.
  - intros [= <-]. lia.
  - destruct (normalize_key s) as [k|]; [|discriminate].
    intros H. apply IH in H.
    pose proof (set_length_le String.eqb k t acc). lia.
Qed.

(** An item whose normalised name is already a key adds no entry. *)
Lemma normalized_hit items acc norm s t k :
  In (s, t) items -> normalize_key s = Returned k ->
  PyDict.mem String.eqb k acc = true ->
  normalized items acc = Returned norm ->
  List.length norm < List.length acc + List.length items.
Proof.
  revert acc; induction items as [|[s0 t0] items IH]; intros acc Hin Hk Hmem;
    [destruct Hin|]. simpl.
  destruct (normalize_key s0) as [k0|] eqn:E0; [|discriminate].
  destruct Hin as [[= -> ->]|Hin].
  - rewrite Hk in E0. injection E0 as <-.
    intros H. apply normalized_length_le in H.
    rewrite (set_length_mem String.eqb k t acc Hmem) in H. lia.
  - intros H. apply (IH _ Hin Hk) in H.
    + pose proof (set_length_le String.eqb k0 t0 acc). lia.
    + now apply (mem_set_mono String.eqb String.eqb_sym string_eqb_trans).
Qed.

(** Two items with the same normalised name: fewer entries than items. *)
Lemma normalized_collide pre s1 t1 mid s2 t2 post k acc norm :
  normalize_key s1 = Returned k -> normalize_key s2 = Returned k ->
  normalized (pre ++ (s1, t1) :: mid ++ (s2, t2) :: post) acc = Returned norm ->
  List.length norm
  < List.length acc + List.length (pre ++ (s1, t1) :: mid ++ (s2, t2) :: post).
Proof.
  intros H1 H2. revert acc; induction pre as [|[s0 t0] pre IH]; intros acc; simpl.
  - rewrite H1. intros H.
    apply (normalized_hit _ _ _ s2 t2 k) in H.
    + pose proof (set_length_le String.eqb k t1 acc). lia.
    + apply in_or_app. right. now left.
    + exact H2.
    + apply mem_set_same, String.eqb_refl.
  - destruct (normalize_key s0) as [k0|]; [|discriminate].
    intros H. apply IH in H.
    pose proof (set_length_le String.eqb k0 t0 acc). lia.
Qed.

(** Items with other normalised names leave the entry of [k] alone. *)
Lemma normalized_get_absent items acc norm k :
  (forall s t, In (s, t) items -> normalize_key s <> Returned k) ->
  normalized items acc = Returned norm ->
  PyDict.get String.eqb k norm = PyDict.get String.eqb k acc.
Proof.
  revert acc; induction items as [|[s0 t0] items IH]; intros acc Hno; simpl.
  - now intros [= <-].
  - destruct (normalize_key s0) as [k0|] eqn:E0; [|discriminate].
    intros H. rewrite (IH _ (fun s t Hi => Hno s t (or_intror Hi)) H).
    apply (get_set_other String.eqb String.eqb_sym string_eqb_trans).
    apply String.eqb_neq. intros ->. apply (Hno s0 t0); [now left | exact E0].
Qed.

(** The tag of the last item with a given normalised name is the one
    that stays. *)
Lemma normalized_last_wins pre s t post k acc norm :
  normalize_key s = Returned k ->
  (forall s' t', In (s', t') post -> normalize_key s' <> Returned k) ->
  normalized (pre ++ (s, t) :: post) acc = Returned norm ->
  PyDict.get String.eqb k norm = Some t.
Proof.
  intros Hk Hno. rewrite normalized_app.
  destruct (normalized pre acc) as [m|]; [|discriminate].
  simpl. rewrite Hk. intros H.
  rewrite (normalized_get_absent _ _ _ _ Hno H).
  apply get_set_same, String.eqb_refl.
Qed.

End NormalizedFacts.

Section AnalyzeFileFacts.
Import PyStr YAMLAnalyzer Transport Collector.

Variable get_file_content : Z -> string -> option string.
Variable safe_load : string -> load_result.
Variable extract_images_via_regex : string -> list (string * string).

(** A manifest with services: what one turn of the loop records. *)
Lemma analyze_file_matched pid yf ps st content ps' st' :
  get_file_content pid (f_path yf) = Some content ->
  content <> "" ->
  find_services_in_yaml safe_load extract_images_via_regex content <> [] ->
  analyze_file get_file_content safe_load extract_images_via_regex pid yf ps st
    = (Returned ps', st') ->
  exists norm,
    normalized (find_services_in_yaml safe_load extract_images_via_regex content) []
      = Returned norm /\
    ps' = PyDict.set String.eqb (manifest_key (f_name yf)) norm ps /\
    st' = add_manifest
            (List.length (find_services_in_yaml safe_load extract_images_via_regex content))
            st.
Proof.
  intros Hc Hne Hs. unfold analyze_file. rewrite Hc.
  apply String.eqb_neq in Hne. rewrite Hne.
  destruct (find_services_in_yaml _ _ content) as [|e services]; [congruence|].
  destruct (normalized (e :: services) []) as [norm|]; [|discriminate].
  intros [= <- <-]. now exists norm.
Qed.

End AnalyzeFileFacts.

(** C10: for a manifest in which services were found, the counter grows
    by the number of raw names, the map stored under the manifest key is
    built from the normalised names, and when two raw names have the same
    normalised name the stored map has fewer entries than were counted and
    keeps, under that name, the tag of the last of them. *)
Theorem raw_count_and_normalised_store
    (get_file_content : Z -> string -> option string)
    (safe_load : string -> YAMLAnalyzer.load_result)
    (extract_images_via_regex : string -> list (string * string))
    (pid : Z) (yf : Collector.file_entry)
    (ps ps' : Collector.manifest_map) (st st' : Collector.stats)
    (content : string) (services : YAMLAnalyzer.service_map) :
  get_file_content pid (Collector.f_path yf) = Some content ->
  content <> "" ->
  YAMLAnalyzer.find_services_in_yaml safe_load extract_images_via_regex content
    = services ->
  services <> [] ->
  Collector.analyze_file get_file_content safe_load extract_images_via_regex
    pid yf ps st = (Returned ps', st') ->
  Collector.total_services st'
    = Collector.total_services st + List.length services
  /\ exists norm,
       Collector.normalized services [] = Returned norm
    /\ PyDict.get String.eqb (Collector.manifest_key (Collector.f_name yf)) ps'
       = Some norm
    /\ Invariant.normal_keys norm
    /\ forall pre s1 t1 mid s2 t2 post k,
         services = pre ++ (s1, t1) :: mid ++ (s2, t2) :: post ->
         Collector.normalize_key s1 = Returned k ->
         Collector.normalize_key s2 = Returned k ->
         List.length norm < List.length services
         /\ ((forall s t, In (s, t) post -> Collector.normalize_key s <> Returned k) ->
             PyDict.get String.eqb k norm = Some t2).
Proof.
  intros Hc Hne Hs Hnil Ha. subst services.
  destruct (analyze_file_matched _ _ _ _ _ _ _ _ _ _ Hc Hne Hnil Ha)
    as (norm & Hn & -> & ->).
  split; [reflexivity|]. exists norm. repeat split.
  - exact Hn.
  - apply get_set_same, String.eqb_refl.
  - exact (normalized_normal _ [] norm (Forall_nil _) Hn).
  - rewrite H in Hn. apply (normalized_collide _ _ _ _ _ _ _ k) in Hn; auto.
    rewrite H. simpl in Hn. exact Hn.
  - intros Hno. rewrite H in Hn.
    apply (normalized_last_wins (pre ++ (s1, t1) :: mid) s2 t2 post k [] norm);
      auto.
    now rewrite <- app_assoc.
Qed.

(* ----------------------------------------------------------------- *)
(** ** analyze_project: manifest keys *)

(** The end-to-end example of section 8. *)
Example analyze_project_infra :
  Collector.analyze_project
    (Scenario.files_named ["docker-compose.yml"; "infra.yaml"])
    (Scenario.text_of "web: {image: nginx:1.21}")
    (Scenario.loads Scenario.web_doc) Scenario.no_regex
    Scenario.demo Collector.no_stats
  = (Returned (Some (Collector.mkResult 1 "demo" [("infra", [("web", "1.21")])])),
     Collector.mkStats 0 1 1 1 0).
Proof. reflexivity. Qed.

Example manifest_key_services_prefix :
  Collector.manifest_key "services_api.yml" = "api".
Proof. reflexivity. Qed.

(** The names of the stored map are normalised, and a name met twice
    keeps the later tag. *)
Example collect_normalises_names :
  Collector.collect_all_services
    (Collector.analyze_project (Scenario.files_named ["services_infra.yml"])
       (Scenario.text_of "text") (Scenario.loads Scenario.colliding_doc)
       Scenario.no_regex)
    true [Scenario.demo] true [Scenario.demo] Collector.new_collector
  = (Returned tt,
     Collector.mkCollector (Collector.mkStats 1 1 1 2 0)
       [("demo", [("infra", [("my_svc", "2")])])]).
Proof. reflexivity. Qed.

(** C7, at a file name on which the code and the specification part: [replace]
    takes out every ['.yml'] of the name, not only the extension, so the
    manifest [app.yml.prod.yaml] is recorded under ["app.prod"], while the
    name without its extension is ["app.yml.prod"]. *)
Theorem manifest_key_inner_extension :
  Collector.analyze_project
    (Scenario.files_named ["app.yml.prod.yaml"])
    (Scenario.text_of "web: {image: nginx:1.21}")
    (Scenario.loads Scenario.web_doc) Scenario.no_regex
    Scenario.demo Collector.no_stats
  = (Returned (Some (Collector.mkResult 1 "demo" [("app.prod", [("web", "1.21")])])),
     Collector.mkStats 0 1 1 1 0)
  /\ Scenario.spec_manifest_key "app.yml.prod.yaml" = "app.yml.prod".
Proof. split; reflexivity. Qed.

(* ----------------------------------------------------------------- *)
(** ** collect_all_services: a unit that raises *)

Section CollectFacts.
Import Transport Collector.
Variable analyze : project -> stats -> outcome (option project_result) * stats.

(** With threads, a unit that raised is counted once by the handler and
    the remaining units are collected. *)
Lemma collect_threaded_raised p rest c st :
  analyze p (stats_of c) = (Raised, st) ->
  collect_threaded analyze (p :: rest) c
  = collect_threaded analyze rest (mkCollector (add_error st) (results c)).
Proof. intros H. simpl. now rewrite H. Qed.

(** Without threads, a unit that raised ends the run: the projects after
    it are not analysed and the handler's count is not made. *)
Lemma collect_sequential_raised p rest c st :
  analyze p (stats_of c) = (Raised, st) ->
  collect_sequential analyze (p :: rest) c = (Raised, mkCollector st (results c)).
Proof. intros H. simpl. now rewrite H. Qed.

Lemma collect_threaded_app a b c :
  collect_threaded analyze (a ++ b) c
  = collect_threaded analyze b (collect_threaded analyze a c).
Proof.
  revert c; induction a as [|p a IH]; intros c; simpl; [reflexivity|]. apply IH.
Qed.

(** With threads, wherever the unit that raises completes: what was
    collected before it stays, it is counted once, and the units that
    complete after it are collected. *)
Lemma collect_threaded_isolated before p after c st :
  analyze p (stats_of (collect_threaded analyze before c)) = (Raised, st) ->
  collect_threaded analyze (before ++ p :: after) c
  = collect_threaded analyze after
      (mkCollector (add_error st)
         (results (collect_threaded analyze before c))).
Proof. intros H. now rewrite collect_threaded_app, (collect_threaded_raised _ _ _ _ H). Qed.

(** Without threads, the projects after the unit that raises are not
    analysed, whatever they hold. *)
Lemma collect_sequential_stops before p after c c1 st :
  collect_sequential analyze before c = (Returned tt, c1) ->
  analyze p (stats_of c1) = (Raised, st) ->
  collect_sequential analyze (before ++ p :: after) c
  = (Raised, mkCollector st (results c1)).
Proof.
  revert c; induction before as [|q before IH]; intros c; simpl.
  - intros [= <-] H. now rewrite H.
  - destruct (analyze q (stats_of c)) as [[res|] st0]; [|discriminate].
    apply IH.
Qed.

End CollectFacts.

(** The unit of project 1 raises: its service is named by an [int]. *)
Example analyze_two_raises :
  Scenario.analyze_two Scenario.demo Collector.no_stats = (Raised, Collector.no_stats).
Proof. reflexivity. Qed.

(** With threads and two projects, in either order of completion, the
    fault is counted once and the other project is in the results. *)
Example collect_threaded_isolates :
  forall completed,
    completed = [Scenario.demo; Scenario.other] \/
    completed = [Scenario.other; Scenario.demo] ->
    Collector.collect_all_services Scenario.analyze_two true
      [Scenario.demo; Scenario.other] true completed Collector.new_collector
    = (Returned tt,
       Collector.mkCollector (Collector.mkStats 2 1 1 1 1)
         [("other", [("infra", [("web", "1.21")])])]).
Proof. intros completed [-> | ->]; reflexivity. Qed.

(** Without threads the same fault ends the run before the other project
    is analysed. *)
Example collect_sequential_aborts :
  Collector.collect_all_services Scenario.analyze_two true
    [Scenario.demo; Scenario.other] false [] Collector.new_collector
  = (Raised, Collector.mkCollector (Collector.mkStats 2 0 0 0 0) []).
Proof. reflexivity. Qed.

(** C6, at the input on which the code and the specification part: with exactly
    one project the loop of lines 305-308 runs, it has no handler, the
    exception leaves [collect_all_services], the error counter stays at 0
    and nothing is stored. *)
Theorem collect_single_project_raises :
  Collector.collect_all_services Scenario.analyze_two true
    [Scenario.demo] true [Scenario.demo] Collector.new_collector
  = (Raised, Collector.mkCollector (Collector.mkStats 1 0 0 0 0) []).
Proof. reflexivity. Qed.

(* ----------------------------------------------------------------- *)
(** ** The counter and the stored map, on an example *)

Lemma raw_count_and_normalised_store_witness :
  Collector.total_services (Collector.mkStats 0 0 1 2 0) = 0 + 2
  /\ exists norm,
       Collector.normalized [(YAMLAnalyzer.SStr "my-svc", "1"); (YAMLAnalyzer.SStr "my.svc", "2")] []
       = Returned norm
    /\ PyDict.get String.eqb (Collector.manifest_key "infra.yaml")
         [("infra", [("my_svc", "2")])] = Some norm
    /\ Invariant.normal_keys norm
    /\ forall pre s1 t1 mid s2 t2 post k,
         [(YAMLAnalyzer.SStr "my-svc", "1"); (YAMLAnalyzer.SStr "my.svc", "2")]
         = pre ++ (s1, t1) :: mid ++ (s2, t2) :: post ->
         Collector.normalize_key s1 = Returned k ->
         Collector.normalize_key s2 = Returned k ->
         List.length norm < 2
         /\ ((forall s t, In (s, t) post -> Collector.normalize_key s <> Returned k) ->
             PyDict.get String.eqb k norm = Some t2).
Proof.
  apply (raw_count_and_normalised_store
           (Scenario.text_of "text") (Scenario.loads Scenario.colliding_doc)
           Scenario.no_regex 1%Z (Scenario.blob "infra.yaml")
           [] [("infra", [("my_svc", "2")])]
           Collector.no_stats (Collector.mkStats 0 0 1 2 0) "text"
           [(YAMLAnalyzer.SStr "my-svc", "1"); (YAMLAnalyzer.SStr "my.svc", "2")]).
  - reflexivity.
  - discriminate.
  - reflexivity.
  - discriminate.
  - reflexivity.
Defined.

(* ----------------------------------------------------------------- *)
(** ** manifest_key on names with one extension *)

Section ManifestKeyFacts.
Import PyStr YAMLAnalyzer Collector Shape.

Lemma append_empty s : (s ++ "")%string = s.
Proof. induction s as [|c r IH]; simpl; [reflexivity | now rewrite IH]. Qed.

Lemma startswith_refl p : startswith p p = true.
Proof. induction p as [|a p IH]; simpl; [reflexivity|]. now rewrite Ascii.eqb_refl. Qed.

Lemma contains_cons p c r :
  contains p (String c r) = startswith p (String c r) || contains p r.
Proof. reflexivity. Qed.

Lemma replace_from_cons old new c r :
  replace_from old new 0 (String c r) =
  if startswith old (String c r)
  then (new ++ replace_from old new (String.length old - 1) r)%string
  else String c (replace_from old new 0 r).
Proof. reflexivity. Qed.

(** A text without [old] is left as it is. *)
Lemma replace_absent old new s : contains old s = false -> replace old new s = s.
Proof.
  unfold replace. induction s as [|c r IH]; [reflexivity|].
  rewrite contains_cons. intros H. apply orb_false_iff in H as [H1 H2].
  now rewrite replace_from_cons, H1, (IH H2).
Qed.

Lemma replace_from_skip old new s :
  replace_from old new (String.length s) s = "".
Proof. induction s as [|c r IH]; [reflexivity|]. exact IH. Qed.

(** When the first character [a] of the pattern does not come back in
    the pattern, a match cannot begin before a later [a] and run over it. *)
Lemma startswith_before p a r t :
  all_chars (is_not a) p = true ->
  startswith p (r ++ String a t) = true -> startswith p r = true.
Proof.
  revert r; induction p as [|b p IH]; intros r Hp; [reflexivity|].
  simpl in Hp. apply andb_prop in Hp as [Hb Hp].
  destruct r as [|c r]; simpl.
  - unfold is_not in Hb. apply negb_true_iff in Hb. now rewrite Hb.
  - intros H. apply andb_prop in H as [H1 H2]. rewrite H1. now apply IH.
Qed.

Lemma contains_before a rest base t :
  all_chars (is_not a) rest = true ->
  contains (String a rest) base = false ->
  contains (String a rest) (String a t) = false ->
  contains (String a rest) (base ++ String a t) = false.
Proof.
  intros Hrest Hbase Hsuf. induction base as [|c r IH]; [exact Hsuf|].
  rewrite contains_cons in Hbase. apply orb_false_iff in Hbase as [H1 H2].
  change ((String c r ++ String a t)%string) with (String c (r ++ String a t)).
  rewrite contains_cons, (IH H2), orb_false_r.
  destruct (startswith (String a rest) (String c (r ++ String a t))) eqn:E;
    [|reflexivity].
  simpl in E, H1. apply andb_prop in E as [E1 E2].
  now rewrite E1, (startswith_before _ _ _ _ Hrest E2) in H1.
Qed.

(** A text that ends with its only occurrence of the pattern. *)
Lemma replace_at_end a rest new base :
  all_chars (is_not a) rest = true ->
  contains (String a rest) base = false ->
  replace (String a rest) new (base ++ String a rest) = (base ++ new)%string.
Proof.
  intros Hrest Hbase. unfold replace. induction base as [|c r IH].
  - change (("" ++ String a rest)%string) with (String a rest).
    rewrite replace_from_cons, startswith_refl.
    change (String.length (String a rest) - 1) with (String.length rest - 0).
    rewrite Nat.sub_0_r, replace_from_skip. simpl. now rewrite append_empty.
  - rewrite contains_cons in Hbase. apply orb_false_iff in Hbase as [H1 H2].
    change ((String c r ++ String a rest)%string)
      with (String c (r ++ String a rest)).
    rewrite replace_from_cons.
    destruct (startswith (String a rest) (String c (r ++ String a rest))) eqn:E.
    + simpl in E, H1. apply andb_prop in E as [E1 E2].
      now rewrite E1, (startswith_before _ _ _ _ Hrest E2) in H1.
    + now rewrite (IH H2).
Qed.

(** For a file name with no ['.yml'] and no ['.yaml'] before its
    extension, the key is the name without the extension and without a
    leading ['services_']. *)
Lemma manifest_key_clean base :
  contains ".yml" base = false -> contains ".yaml" base = false ->
  manifest_key (base ++ ".yml") = strip_services_prefix base
  /\ manifest_key (base ++ ".yaml") = strip_services_prefix base.
Proof.
  intros H1 H2. unfold manifest_key. split.
  - rewrite (replace_at_end "." "yml" "" base eq_refl H1), append_empty.
    now rewrite (replace_absent ".yaml" "" base H2).
  - rewrite (replace_absent ".yml" "" (base ++ ".yaml")).
    + now rewrite (replace_at_end "." "yaml" "" base eq_refl H2), append_empty.
    + now apply (contains_before "." "yml" base "yaml").
Qed.

End ManifestKeyFacts.

Section SpecManifestKey.
Import PyStr YAMLAnalyzer Collector Scenario.

Lemma length_append s t :
  String.length (s ++ t) = String.length s + String.length t.
Proof. induction s as [|c r IH]; simpl; [reflexivity | now rewrite IH]. Qed.

Lemma endswith_app p s : endswith p (s ++ p) = true.
Proof.
  induction s as [|c r IH].
  - change (("" ++ p)%string) with p. destruct p as [|a p]; [reflexivity|].
    now rewrite endswith_cons, String.eqb_refl.
  - change ((String c r ++ p)%string) with (String c (r ++ p)).
    rewrite endswith_cons, IH. apply orb_true_r.
Qed.

Lemma substring_app s t : substring 0 (String.length s) (s ++ t) = s.
Proof.
  induction s as [|c r IH]; simpl; [now destruct t | now rewrite IH].
Qed.

Lemma drop_last_app s p : drop_last (String.length p) (s ++ p) = s.
Proof.
  unfold drop_last. rewrite length_append, Nat.add_sub. apply substring_app.
Qed.

Lemma endswith_yaml_yml base : endswith ".yaml" (base ++ ".yml") = false.
Proof.
  induction base as [|c r IH]; [reflexivity|].
  change ((String c r ++ ".yml")%string) with (String c (r ++ ".yml")).
  rewrite endswith_cons, IH, orb_false_r. apply String.eqb_neq.
  intros H. pose proof (f_equal String.length H) as L.
  simpl in L. rewrite length_append in L. simpl in L.
  destruct r; [|simpl in L; lia]. discriminate.
Qed.

(** On such a name the code and the wording of section 4.4 agree. *)
Lemma manifest_key_as_specified base :
  contains ".yml" base = false -> contains ".yaml" base = false ->
  manifest_key (base ++ ".yml") = spec_manifest_key (base ++ ".yml")
  /\ manifest_key (base ++ ".yaml") = spec_manifest_key (base ++ ".yaml").
Proof.
  intros H1 H2. destruct (manifest_key_clean base H1 H2) as [-> ->].
  unfold spec_manifest_key. split.
  - rewrite endswith_yaml_yml, endswith_app.
    pose proof (drop_last_app base ".yml") as E. simpl String.length in E.
    now rewrite E.
  - rewrite endswith_app.
    pose proof (drop_last_app base ".yaml") as E. simpl String.length in E.
    now rewrite E.
Qed.

End SpecManifestKey.

Section AfterLastColon.
Import PyStr YAMLAnalyzer Shape.

Lemma contains_char_cons a c r :
  contains (String a "") (String c r) = Ascii.eqb a c || contains (String a "") r.
Proof. rewrite contains_cons, startswith_char. reflexivity. Qed.

Lemma not_contains_all_chars a s :
  contains (String a "") s = false -> all_chars (is_not a) s = true.
Proof.
  induction s as [|c r IH]; [reflexivity|].
  rewrite contains_char_cons. intros H. apply orb_false_iff in H as [H1 H2].
  simpl. rewrite (IH H2), andb_true_r. unfold is_not.
  now rewrite Ascii.eqb_sym, H1.
Qed.

Lemma split_char_cons sep c r :
  split_char sep (String c r) =
  if Ascii.eqb c sep then EmptyString :: split_char sep r
  else match split_char sep r with
       | h :: t => String c h :: t
       | [] => [String c EmptyString]
       end.
Proof. reflexivity. Qed.

Lemma split_char_nonempty sep s : split_char sep s <> [].
Proof.
  destruct s as [|c r]; [discriminate|]. rewrite split_char_cons.
  destruct (Ascii.eqb c sep); [discriminate|].
  destruct (split_char sep r); discriminate.
Qed.

(** One piece: there was no separator. *)
Lemma split_char_single sep s h :
  split_char sep s = [h] -> contains (String sep "") s = false /\ h = s.
Proof.
  revert h; induction s as [|c r IH]; intros h.
  - now intros [= <-].
  - rewrite split_char_cons. destruct (Ascii.eqb c sep) eqn:E.
    + intros [= _ H]. now apply split_char_nonempty in H.
    + destruct (split_char sep r) as [|h' t] eqn:Er;
        [now apply split_char_nonempty in Er|].
      intros [= <- ->]. destruct (IH h' eq_refl) as [H1 ->].
      rewrite contains_char_cons, H1, Ascii.eqb_sym, E. now split.
Qed.

Lemma last_cons {A} (x : A) l d : l <> [] -> last (x :: l) d = last l d.
Proof. destruct l; [congruence | reflexivity]. Qed.

(** The last piece is what follows the last separator. *)
Lemma split_char_last sep s :
  contains (String sep "") s = true ->
  exists pre,
    s = (pre ++ String sep (last (split_char sep s) ""))%string
    /\ all_chars (is_not sep) (last (split_char sep s) "") = true.
Proof.
  induction s as [|c r IH]; [discriminate|].
  rewrite contains_char_cons, split_char_cons. intros H.
  destruct (contains (String sep "") r) eqn:Er.
  - destruct (IH eq_refl) as (pre & Hr & Hall).
    exists (String c pre).
    assert (Hlast : last (if Ascii.eqb c sep then EmptyString :: split_char sep r
                          else match split_char sep r with
                               | h :: t => String c h :: t
                               | [] => [String c EmptyString]
                               end) "" = last (split_char sep r) "").
    { destruct (Ascii.eqb c sep).
      - apply last_cons, split_char_nonempty.
      - destruct (split_char sep r) as [|h t] eqn:Es;
          [now apply split_char_nonempty in Es|].
        destruct t as [|x t].
        + apply split_char_single in Es as [Es _]. congruence.
        + reflexivity. }
    rewrite Hlast. split; [|exact Hall]. simpl. now rewrite <- Hr.
  - rewrite orb_false_r in H. rewrite Ascii.eqb_sym in H. rewrite H.
    rewrite last_cons by apply split_char_nonempty.
    destruct (split_char sep r) as [|h t] eqn:Es;
      [now apply split_char_nonempty in Es|].
    assert (Ht : t = []).
    { destruct t as [|x t]; [reflexivity|].
      exfalso. clear IH H.
      revert h x t Es. induction r as [|c' r' IHr]; intros h x t.
      - discriminate.
      - rewrite contains_char_cons in Er. apply orb_false_iff in Er as [E1 E2].
        rewrite split_char_cons. rewrite Ascii.eqb_sym in E1. rewrite E1.
        destruct (split_char sep r') as [|h' t'] eqn:Es';
          [now apply split_char_nonempty in Es'|].
        intros [= _ ->]. apply (IHr E2 h' x t eq_refl). }
    subst t. apply split_char_single in Es as [_ ->]. simpl.
    apply Ascii.eqb_eq in H. subst c.
    exists "". split; [reflexivity|]. now apply not_contains_all_chars.
Qed.

(** With a colon: the tag is what follows the last colon of the trimmed
    string, without its wrapper when it starts with ['${'] and ends with
    ['}']. *)
Lemma extract_image_tag_after_colon s :
  contains ":" (strip s) = true ->
  exists pre tag,
    strip s = (pre ++ ":" ++ tag)%string
    /\ contains ":" tag = false
    /\ extract_image_tag s =
       if startswith "${" tag && endswith "}" tag then slice 2 1 tag else tag.
Proof.
  intros H. destruct (split_char_last ":" (strip s) H) as (pre & Hs & Hall).
  exists pre, (last (split_char ":" (strip s)) "").
  split; [exact Hs|]. split; [now apply all_chars_not_contains|].
  rewrite extract_image_tag_eq. cbv zeta. now rewrite H.
Qed.

End AfterLastColon.

(* ----------------------------------------------------------------- *)
(** ** get_all_projects *)

Section Listing.
Import Transport Scenario.

Lemma firstn_succ_nth {A} (l : list A) i x :
  nth_error l i = Some x -> firstn (S i) l = firstn i l ++ [x].
Proof.
  revert i; induction l as [|y l IH]; intros [|i]; simpl; try discriminate.
  - now intros [= ->].
  - intros H. now rewrite <- (IH _ H).
Qed.

Lemma concat_firstn_succ {A} (pages : list (list A)) i items :
  nth_error pages i = Some items ->
  concat (firstn (S i) pages) = concat (firstn i pages) ++ items.
Proof.
  intros H. rewrite (firstn_succ_nth _ _ _ H), concat_app. simpl.
  now rewrite app_nil_r.
Qed.

Lemma length_concat_pages {A} (pages : list (list A)) n :
  Forall (fun pg => List.length pg = n) pages ->
  List.length (concat pages) = n * List.length pages.
Proof.
  induction 1 as [|pg pages Hpg _ IH]; simpl; [lia|].
  rewrite length_app, IH, Hpg. lia.
Qed.

Lemma Forall_firstn {A} (P : A -> Prop) i l : Forall P l -> Forall P (firstn i l).
Proof.
  intros H; revert i; induction H; intros [|i]; simpl; constructor; auto.
Qed.

Lemma length_loaded {A} (pages : list (list A)) n i :
  Forall (fun pg => List.length pg = n) pages -> i <= List.length pages ->
  List.length (concat (firstn i pages)) = n * i.
Proof.
  intros H Hi.
  rewrite (length_concat_pages _ n (Forall_firstn _ i _ H)).
  now rewrite firstn_length_le.
Qed.

(** The loaded pages are the beginning of the whole listing. *)
Lemma firstn_loaded {A} (pages : list (list A)) i n :
  n <= List.length (concat (firstn i pages)) ->
  firstn n (concat (firstn i pages)) = firstn n (concat pages).
Proof.
  intros H. rewrite <- (firstn_skipn i pages) at 2.
  rewrite concat_app, firstn_app.
  replace (n - List.length (concat (firstn i pages))) with 0 by lia.
  simpl. now rewrite app_nil_r.
Qed.

Lemma get_all_projects_from_step truth server max_projects fuel page all_projects :
  get_all_projects_from truth server max_projects (S fuel) page all_projects =
  match result (make_request truth (server page)) with
  | None => Some all_projects
  | Some response =>
      match body response with
      | [] => Some all_projects
      | projects =>
          let all_projects := all_projects ++ projects in
          if negb (max_projects =? 0)%Z
             && (max_projects <=? Z.of_nat (List.length all_projects))%Z
          then Some (take_upto max_projects all_projects)
          else if negb (next_link response) then Some all_projects
          else get_all_projects_from truth server max_projects fuel (S page)
                 all_projects
      end
  end.
Proof. reflexivity. Qed.

Variable pages : list (list project).
Variable cap : Z.
Hypothesis full : Forall (fun pg => List.length pg = page_size) pages.
Hypothesis cap_positive : (0 < cap)%Z.
Hypothesis cap_below : (cap < Z.of_nat (page_size * List.length pages))%Z.

Lemma request_page i items :
  nth_error pages i = Some items ->
  result (make_request requests_bool (listing_server pages (S i)))
  = Some (mkResponse 200%Z items (Nat.ltb (S i) (List.length pages))).
Proof.
  intros H.
  rewrite (make_request_ok requests_bool (listing_server pages (S i))
             (mkResponse 200%Z items (Nat.ltb (S i) (List.length pages))));
    [reflexivity| |reflexivity|reflexivity].
  unfold listing_server. now rewrite H.
Qed.

(** The loop, started on page [i + 1] with the first [i] pages loaded and
    the cap not yet reached, ends with the first [cap] projects. *)
Lemma get_all_projects_from_capped k :
  forall i fuel,
    i + k = List.length pages -> 0 < k -> k <= fuel ->
    (Z.of_nat (List.length (concat (firstn i pages))) < cap)%Z ->
    get_all_projects_from requests_bool (listing_server pages) cap fuel (S i)
      (concat (firstn i pages))
    = Some (firstn (Z.to_nat cap) (concat pages)).
Proof.
  induction k as [|k IH]; intros i fuel Hik Hk Hfuel Hlen; [lia|].
  destruct fuel as [|fuel]; [lia|].
  destruct (nth_error pages i) as [items|] eqn:Hnth;
    [|apply nth_error_None in Hnth; lia].
  assert (Hitems : List.length items = page_size).
  { apply nth_error_In in Hnth. rewrite Forall_forall in full. auto. }
  rewrite get_all_projects_from_step, (request_page _ _ Hnth).
  cbn [body next_link].
  destruct items as [|p items]; [discriminate|]. cbv zeta.
  rewrite <- (concat_firstn_succ _ _ _ Hnth).
  assert (Hlen' : List.length (concat (firstn (S i) pages)) = page_size * S i)
    by (apply length_loaded; [exact full | lia]).
  destruct (Z.eqb_spec cap 0) as [|_]; [lia|]. cbn [negb andb].
  destruct (Z.leb_spec cap (Z.of_nat (List.length (concat (firstn (S i) pages)))))
    as [Hle|Hgt].
  - unfold take_upto. destruct (Z.leb_spec 0 cap); [|lia].
    f_equal. apply firstn_loaded. lia.
  - assert (S i < List.length pages) by (unfold page_size in *; nia).
    destruct (Nat.ltb_spec (S i) (List.length pages)); [|lia]. cbn [negb].
    apply (IH (S i) fuel); lia.
Qed.

End Listing.

Section Uncapped.
Import Transport Scenario.

Variable pages : list (list project).
Hypothesis full : Forall (fun pg => List.length pg = page_size) pages.

Lemma get_all_projects_from_uncapped k :
  forall i fuel,
    i + k = List.length pages -> 0 < k -> k <= fuel ->
    get_all_projects_from requests_bool (listing_server pages) 0 fuel (S i)
      (concat (firstn i pages))
    = Some (concat pages).
Proof.
  induction k as [|k IH]; intros i fuel Hik Hk Hfuel; [lia|].
  destruct fuel as [|fuel]; [lia|].
  destruct (nth_error pages i) as [items|] eqn:Hnth;
    [|apply nth_error_None in Hnth; lia].
  assert (Hitems : List.length items = page_size).
  { apply nth_error_In in Hnth. rewrite Forall_forall in full. auto. }
  rewrite get_all_projects_from_step, (request_page _ _ _ Hnth).
  cbn [body next_link].
  destruct items as [|p items]; [discriminate|]. cbv zeta.
  rewrite <- (concat_firstn_succ _ _ _ Hnth).
  change (negb (0 =? 0)%Z) with false. cbn [andb].
  destruct (Nat.ltb_spec (S i) (List.length pages)) as [Hlt|Hge]; cbn [negb].
  - apply (IH (S i) fuel); lia.
  - now rewrite firstn_all2 by lia.
Qed.

(** A cap of 0 is no cap: the whole listing is returned. *)
Lemma get_all_projects_uncapped fuel :
  pages <> [] -> List.length pages <= fuel ->
  get_all_projects requests_bool (listing_server pages) 0 fuel
  = Some (concat pages).
Proof.
  intros Hne Hfuel. unfold get_all_projects.
  apply (get_all_projects_from_uncapped (List.length pages) 0 fuel);
    [reflexivity| |exact Hfuel].
  destruct pages; [congruence | simpl; lia].
Qed.

End Uncapped.

(** C4 (as amended): for a listing of full pages and a cap between 1 and
    the number of listed projects (not included), the loop ends within as
    many turns as there are pages and returns the first [cap] projects of
    the listing, [cap] of them. *)
Theorem get_all_projects_capped
    (pages : list (list Transport.project)) (cap : Z) (fuel : nat) :
  Forall (fun pg => List.length pg = Scenario.page_size) pages ->
  (0 < cap)%Z ->
  (cap < Z.of_nat (Scenario.page_size * List.length pages))%Z ->
  List.length pages <= fuel ->
  Transport.get_all_projects Transport.requests_bool
    (Scenario.listing_server pages) cap fuel
  = Some (firstn (Z.to_nat cap) (concat pages))
  /\ List.length (firstn (Z.to_nat cap) (concat pages)) = Z.to_nat cap.
Proof.
  intros Hfull Hpos Hcap Hfuel.
  assert (Hn : 0 < List.length pages) by (destruct pages; simpl in *; lia).
  split.
  - unfold Transport.get_all_projects.
    apply (get_all_projects_from_capped pages cap Hfull Hpos Hcap
             (List.length pages) 0 fuel); simpl; lia.
  - rewrite firstn_length_le; [reflexivity|].
    rewrite (length_concat_pages pages _ Hfull). lia.
Qed.

Lemma get_all_projects_capped_witness :
  Transport.get_all_projects Transport.requests_bool
    (Scenario.listing_server [Scenario.full_page; Scenario.full_page]) 70 2
  = Some (firstn (Z.to_nat 70) (concat [Scenario.full_page; Scenario.full_page]))
  /\ List.length (firstn (Z.to_nat 70) (concat [Scenario.full_page; Scenario.full_page]))
     = Z.to_nat 70.
Proof.
  apply (get_all_projects_capped [Scenario.full_page; Scenario.full_page] 70 2).
  - repeat constructor.
  - lia.
  - simpl. lia.
  - simpl. lia.
Defined.

(** C4, a cap on which the specification fails: a cap of 0 is below the size of
    any listing, but line 100 reads it as "no cap" and the whole page of 50
    projects is returned. *)
Lemma get_all_projects_cap_zero :
  (0 < Z.of_nat (Scenario.page_size * List.length [Scenario.full_page]))%Z
  /\ Transport.get_all_projects Transport.requests_bool
       (Scenario.listing_server [Scenario.full_page]) 0 2
     = Some Scenario.full_page
  /\ List.length Scenario.full_page <> Z.to_nat 0.
Proof.
  split; [reflexivity|]. split; [reflexivity|]. vm_compute. discriminate.
Qed.

(* ----------------------------------------------------------------- *)
(** ** The search as a walk *)

Section WalkFacts.
Import YAMLAnalyzer Walk.

Lemma and_then_ok r : and_then r Ok = r.
Proof. now destruct r. Qed.

Lemma write_all_app a b s :
  write_all (a ++ b) s = and_then (write_all a s) (write_all b).
Proof.
  revert s; induction a as [|[path d] a IH]; intros s; simpl; [reflexivity|].
  destruct (record_image d path s); simpl; [apply IH | reflexivity].
Qed.

Lemma record_image_none d path s :
  has_string_image d = false -> record_image d path s = Ok s.
Proof.
  unfold has_string_image, record_image.
  destruct (PyDict.get key_eqb (SStr "image") d) as [[[| | |img]| |]|];
    try reflexivity. discriminate.
Qed.

Lemma write_here d path s :
  write_all (if has_string_image d then [(path, d)] else []) s
  = record_image d path s.
Proof.
  destruct (has_string_image d) eqn:E; simpl.
  - apply and_then_ok.
  - now rewrite record_image_none.
Qed.

(** The search performs the assignments of the reached nodes, in order. *)
Lemma recursive_search_walk v :
  forall path s, recursive_search v path s = write_all (reached v path) s.
Proof.
  induction v as [x|l IH|d IH] using pyval_induction; intros path s.
  - reflexivity.
  - simpl. generalize 0 as i. revert s.
    induction IH as [|x l Hx _ IHl]; intros s i; [reflexivity|].
    rewrite write_all_app, Hx.
    destruct (write_all (reached x (index_path path i)) s); simpl;
      [apply IHl | reflexivity].
  - simpl recursive_search. simpl reached.
    rewrite write_all_app, write_here.
    destruct (record_image d path s) as [s'|s']; simpl; [|reflexivity].
    clear s. revert s'.
    induction IH as [|[k x] d Hx _ IHd]; intros s; [reflexivity|].
    rewrite write_all_app. simpl in Hx.
    destruct (structural k); simpl.
    + apply IHd.
    + rewrite Hx. destruct (write_all (reached x (child_path path k)) s); simpl;
        [apply IHd | reflexivity].
Qed.

End WalkFacts.

Section KeyFacts.
Import YAMLAnalyzer.

Lemma key_eqb_refl k : key_eqb k k = true.
Proof.
  destruct k; simpl; auto using Z.eqb_refl, String.eqb_refl, Bool.eqb_reflx.
Qed.

Lemma key_eqb_sym a b : key_eqb a b = key_eqb b a.
Proof.
  destruct a, b; simpl; auto using Z.eqb_sym, String.eqb_sym.
  now destruct b0, b.
Qed.

Lemma key_eqb_trans a b c :
  key_eqb a b = true -> key_eqb b c = true -> key_eqb a c = true.
Proof.
  destruct a as [|x|x|x], b as [|y|y|y], c as [|z|z|z]; simpl;
    try discriminate; try reflexivity;
    rewrite ?Z.eqb_eq, ?String.eqb_eq, ?Bool.eqb_true_iff;
    try congruence;
    repeat match goal with b : bool |- _ => destruct b end;
    intros; subst; try reflexivity; try discriminate; try lia.
Qed.

Lemma existsb_key_eqb k k' seen :
  key_eqb k k' = true ->
  existsb (key_eqb k) seen = existsb (key_eqb k') seen.
Proof.
  intros E. induction seen as [|x seen IH]; simpl; [reflexivity|].
  rewrite IH. f_equal.
  destruct (key_eqb k x) eqn:E1, (key_eqb k' x) eqn:E2; try reflexivity.
  - rewrite (key_eqb_trans k' k x) in E2; [discriminate| |exact E1].
    now rewrite key_eqb_sym.
  - rewrite (key_eqb_trans k k' x E E2) in E1. discriminate.
Qed.

(** A key that equals a string is that string. *)
Lemma key_eqb_str k n : key_eqb k (SStr n) = true -> k = SStr n.
Proof.
  destruct k; simpl; try discriminate. intros H. apply String.eqb_eq in H.
  now subst.
Qed.

End KeyFacts.

Section WriteFacts.
Import YAMLAnalyzer Walk.

Lemma record_image_some d path s :
  has_string_image d = true ->
  record_image d path s =
  match node_key d path with
  | Some k => Ok (PyDict.set key_eqb k (node_tag d) s)
  | None => Err s
  end.
Proof.
  unfold has_string_image, record_image, node_key, node_tag.
  destruct (PyDict.get key_eqb (SStr "image") d) as [[[| | |img]| |]|];
    try discriminate.
  intros _. now destruct (service_name d path).
Qed.

Lemma record_image_length d path s :
  List.length (final (record_image d path s)) <= S (List.length s).
Proof.
  destruct (has_string_image d) eqn:E.
  - rewrite (record_image_some _ _ _ E). destruct (node_key d path); simpl.
    + apply set_length_le.
    + lia.
  - rewrite (record_image_none _ _ _ E). simpl. lia.
Qed.

Lemma record_image_err d path s s' : record_image d path s = Err s' -> s' = s.
Proof.
  destruct (has_string_image d) eqn:E.
  - rewrite (record_image_some _ _ _ E). destruct (node_key d path); [discriminate|].
    now intros [= <-].
  - rewrite (record_image_none _ _ _ E). discriminate.
Qed.

(** At most one entry is added per node. *)
Lemma write_all_length nodes :
  forall s, List.length (final (write_all nodes s)) <= List.length s + List.length nodes.
Proof.
  induction nodes as [|[path d] rest IH]; intros s; simpl; [lia|].
  pose proof (record_image_length d path s) as L.
  destruct (record_image d path s) as [s1|s1] eqn:E; simpl in *.
  - specialize (IH s1). lia.
  - lia.
Qed.

Lemma In_set {K V} (eqb : K -> K -> bool) k (v : V) d e :
  In e (PyDict.set eqb k v d) -> In e d \/ snd e = v.
Proof.
  induction d as [|[k' v'] d IH]; simpl.
  - intros [<-|[]]. now right.
  - destruct (eqb k' k); simpl.
    + intros [<-|H]; [now right | now left; right].
    + intros [<-|H]; [now left; left|]. destruct (IH H); [now left; right | now right].
Qed.

(** Every entry holds the tag of a reached node. *)
Lemma write_all_tags nodes :
  forall s e,
    In e (final (write_all nodes s)) ->
    In e s \/ exists path d, In (path, d) nodes /\ has_string_image d = true
                              /\ snd e = node_tag d.
Proof.
  induction nodes as [|[path d] rest IH]; intros s e; simpl; [now left|].
  destruct (has_string_image d) eqn:E.
  - rewrite (record_image_some _ _ _ E). destruct (node_key d path) as [k|]; simpl.
    + intros H. destruct (IH _ _ H) as [H1|(p & d' & Hin & Hi & Ht)].
      * destruct (In_set _ _ _ _ _ H1) as [H2|H2]; [now left|].
        right. exists path, d. auto.
      * right. exists p, d'. auto.
    + now left.
  - rewrite (record_image_none _ _ _ E). simpl. intros H.
    destruct (IH _ _ H) as [H1|(p & d' & Hin & Hi & Ht)]; [now left|].
    right. exists p, d'. auto.
Qed.

(** With hashable and pairwise different names, every node has its own
    entry, holding its tag. *)
Lemma write_all_fresh nodes :
  forall s seen,
    Forall (fun n : node => has_string_image (snd n) = true) nodes ->
    (forall k, PyDict.mem key_eqb k s = true -> existsb (key_eqb k) seen = true) ->
    fresh_names nodes seen = true ->
    exists s',
      write_all nodes s = Ok s'
      /\ List.length s' = List.length s + List.length nodes
      /\ (forall k, existsb (key_eqb k) seen = true ->
                    PyDict.get key_eqb k s' = PyDict.get key_eqb k s)
      /\ (forall path d, In (path, d) nodes ->
            exists k, node_key d path = Some k
                      /\ PyDict.get key_eqb k s' = Some (node_tag d)).
Proof.
  induction nodes as [|[path d] rest IH]; intros s seen Himg Hseen Hfresh.
  - exists s. simpl. repeat split; auto. intros ? ? [].
  - inversion Himg as [|? ? Hd Hrest]; subst. simpl in Hd, Hfresh.
    destruct (node_key d path) as [k|] eqn:Ek; [|discriminate].
    apply andb_prop in Hfresh as [Hk Hfresh]. apply negb_true_iff in Hk.
    assert (Hnew : PyDict.mem key_eqb k s = false).
    { destruct (PyDict.mem key_eqb k s) eqn:E; [|reflexivity].
      now rewrite (Hseen _ E) in Hk. }
    destruct (IH (PyDict.set key_eqb k (node_tag d) s) (k :: seen) Hrest)
      as (s' & Hw & Hlen & Hold & Hnodes); [|exact Hfresh|].
    { intros k' Hm. simpl. destruct (key_eqb k k') eqn:E.
      - now rewrite key_eqb_sym, E.
      - rewrite (mem_set_other key_eqb key_eqb_sym key_eqb_trans) in Hm by exact E.
        rewrite (Hseen _ Hm). apply orb_true_r. }
    exists s'. simpl write_all. rewrite (record_image_some _ _ _ Hd), Ek. simpl.
    split; [exact Hw|]. split; [|split].
    + rewrite Hlen, (set_length_new key_eqb _ _ _ Hnew). lia.
    + intros k' Hk'. rewrite Hold by (simpl; rewrite Hk'; apply orb_true_r).
      apply (get_set_other key_eqb key_eqb_sym key_eqb_trans).
      destruct (key_eqb k k') eqn:E; [|reflexivity].
      now rewrite (existsb_key_eqb _ _ seen E), Hk' in Hk.
    + intros p d' [[= <- <-]|Hin].
      * exists k. split; [exact Ek|].
        rewrite Hold by (simpl; now rewrite key_eqb_refl).
        apply get_set_same, key_eqb_refl.
      * apply Hnodes, Hin.
Qed.

(** When the assignments raise, they do so at a node whose name is not
    hashable, and they leave what the nodes before it have written. *)
Lemma write_all_err nodes :
  forall s s',
    Forall (fun n : node => has_string_image (snd n) = true) nodes ->
    write_all nodes s = Err s' ->
    exists before path d after,
      nodes = before ++ (path, d) :: after
      /\ node_key d path = None
      /\ write_all before s = Ok s'.
Proof.
  induction nodes as [|[path d] rest IH]; intros s s' Himg; [discriminate|].
  inversion Himg as [|? ? Hd Hrest]; subst. simpl in Hd.
  cbn [write_all]. rewrite (record_image_some _ _ _ Hd).
  destruct (node_key d path) as [k|] eqn:Ek; cbn [and_then].
  - intros H. destruct (IH _ _ Hrest H) as (before & p & d' & after & -> & Hk & Hw).
    exists ((path, d) :: before), p, d', after. repeat split; auto.
    cbn [write_all]. rewrite (record_image_some _ _ _ Hd), Ek. exact Hw.
  - intros [= <-]. exists [], path, d, rest. repeat split; auto.
Qed.

(** From a node with an unhashable name on, nothing is written. *)
Lemma write_all_stop before path d after s :
  has_string_image d = true -> node_key d path = None ->
  final (write_all (before ++ (path, d) :: after) s) = final (write_all before s).
Proof.
  intros Hd Hk. rewrite write_all_app.
  destruct (write_all before s) as [s1|s1]; cbn [and_then]; [|reflexivity].
  cbn [write_all]. now rewrite (record_image_some _ _ _ Hd), Hk.
Qed.

(** With hashable names no assignment raises, and every node finds its
    name among the keys. *)
Lemma write_all_named nodes :
  forall s,
    Forall (fun n : node => has_string_image (snd n) = true) nodes ->
    (forall path d, In (path, d) nodes -> node_key d path <> None) ->
    exists s',
      write_all nodes s = Ok s'
      /\ (forall k, PyDict.mem key_eqb k s = true -> PyDict.mem key_eqb k s' = true)
      /\ (forall path d, In (path, d) nodes ->
            exists k, node_key d path = Some k /\ PyDict.mem key_eqb k s' = true).
Proof.
  induction nodes as [|[path d] rest IH]; intros s Himg Hname.
  - exists s. repeat split; auto. intros ? ? [].
  - inversion Himg as [|? ? Hd Hrest]; subst. simpl in Hd.
    destruct (node_key d path) as [k|] eqn:Ek;
      [|now destruct (Hname path d (or_introl eq_refl))].
    destruct (IH (PyDict.set key_eqb k (node_tag d) s) Hrest)
      as (s' & Hw & Hmono & Hnodes).
    { intros p d' Hin. apply Hname. now right. }
    exists s'. cbn [write_all]. rewrite (record_image_some _ _ _ Hd), Ek.
    cbn [and_then]. split; [exact Hw|]. split.
    + intros k' Hk'. apply Hmono.
      now apply (mem_set_mono key_eqb key_eqb_sym key_eqb_trans).
    + intros p d' [[= <- <-]|Hin].
      * exists k. split; [exact Ek|]. apply Hmono.
        apply mem_set_same, key_eqb_refl.
      * apply Hnodes, Hin.
Qed.

Lemma reached_has_image v :
  forall path, Forall (fun n : node => has_string_image (snd n) = true) (reached v path).
Proof.
  induction v as [x|l IH|d IH] using pyval_induction; intros path.
  - constructor.
  - simpl. generalize 0 as i.
    induction IH as [|x l Hx _ IHl]; intros i; [constructor|].
    apply Forall_app. split; [apply Hx | apply IHl].
  - simpl. apply Forall_app. split.
    + destruct (has_string_image d) eqn:E; repeat constructor. exact E.
    + induction IH as [|[k x] d' Hx _ IHd]; [constructor|].
      apply Forall_app. split; [|exact IHd].
      destruct (structural k); [constructor | apply Hx].
Qed.

(** The reached nodes are among the mapping nodes with a string image. *)
Lemma reached_count v :
  forall path, List.length (reached v path) <= count_image_maps v.
Proof.
  induction v as [x|l IH|d IH] using pyval_induction; intros path.
  - simpl. lia.
  - simpl. generalize 0 at 1 as i.
    induction IH as [|x l Hx _ IHl]; intros i; simpl; [lia|].
    rewrite length_app. specialize (Hx (index_path path i)).
    specialize (IHl (S i)). lia.
  - simpl. rewrite length_app.
    assert (H : List.length
                  ((fix items (l : list (scalar * pyval)) : list node :=
                      match l with
                      | [] => []
                      | (k, x) :: rest =>
                          (if structural k then [] else reached x (child_path path k))
                          ++ items rest
                      end) d)
                <= (fix sum (l : list (scalar * pyval)) : nat :=
                      match l with
                      | [] => 0
                      | (_, x) :: rest => count_image_maps x + sum rest
                      end) d).
    { induction IH as [|[k x] d' Hx _ IHd]; simpl; [lia|].
      rewrite length_app. simpl in Hx. specialize (Hx (child_path path k)).
      destruct (structural k); simpl.
      - apply Nat.le_trans with (1 := IHd). apply Nat.le_add_l.
      - now apply Nat.add_le_mono. }
    destruct (has_string_image d); simpl; [apply le_n_S|]; exact H.
Qed.

End WriteFacts.

Section PruneFacts.
Import YAMLAnalyzer Walk.

Lemma get_pruned n d :
  PyDict.get key_eqb (SStr n)
    (map (fun kv : scalar * pyval =>
            let (k, x) := kv in (k, if structural k then cut x else prune x)) d)
  = option_map (fun x => if structural (SStr n) then cut x else prune x)
      (PyDict.get key_eqb (SStr n) d).
Proof.
  induction d as [|[k x] d IH]; [reflexivity|]. simpl.
  destruct (key_eqb k (SStr n)) eqn:E; [|exact IH].
  apply key_eqb_str in E. now subst k.
Qed.

Lemma first_present_pruned names d :
  Forall (fun n => structural (SStr n) = false) names ->
  first_present names
    (map (fun kv : scalar * pyval =>
            let (k, x) := kv in (k, if structural k then cut x else prune x)) d)
  = prune (first_present names d).
Proof.
  induction 1 as [|n names Hn _ IH]; [reflexivity|]. simpl.
  rewrite get_pruned, Hn, IH.
  now destruct (PyDict.get key_eqb (SStr n) d).
Qed.

Lemma record_image_pruned d path s :
  record_image
    (map (fun kv : scalar * pyval =>
            let (k, x) := kv in (k, if structural k then cut x else prune x)) d)
    path s
  = record_image d path s.
Proof.
  unfold record_image, service_name.
  rewrite get_pruned.
  rewrite (first_present_pruned ["name"; "container_name"; "service"] d)
    by (repeat (constructor; [reflexivity|]); constructor).
  change (structural (SStr "image")) with true. cbv iota.
  destruct (PyDict.get key_eqb (SStr "image") d) as [[[| | |img]| |]|];
    try reflexivity.
  cbn [cut option_map]. destruct (truthy path); [reflexivity|].
  destruct (first_present ["name"; "container_name"; "service"] d); reflexivity.
Qed.

(** The search does not look below the structural keys. *)
Lemma recursive_search_prune v :
  forall path s, recursive_search (prune v) path s = recursive_search v path s.
Proof.
  induction v as [x|l IH|d IH] using pyval_induction; intros path s.
  - reflexivity.
  - simpl. generalize 0 as i. revert s.
    induction IH as [|x l Hx _ IHl]; intros s i; [reflexivity|].
    simpl. rewrite Hx.
    destruct (recursive_search x (index_path path i) s); simpl;
      [apply IHl | reflexivity].
  - simpl. rewrite record_image_pruned.
    destruct (record_image d path s) as [s'|s']; simpl; [|reflexivity].
    clear s. revert s'.
    induction IH as [|[k x] d Hx _ IHd]; intros s; [reflexivity|].
    simpl in Hx |- *. destruct (structural k); simpl; [apply IHd|].
    rewrite Hx.
    destruct (recursive_search x (child_path path k) s); simpl;
      [apply IHd | reflexivity].
Qed.

Lemma truthy_prune v : truthy_val (prune v) = truthy_val v.
Proof. destruct v as [x|[|y l]|[|[k y] d]]; reflexivity. Qed.

Lemma search_document_prune data :
  search_document (prune data) = search_document data.
Proof.
  unfold search_document. now rewrite truthy_prune, recursive_search_prune.
Qed.

Lemma search_document_walk data :
  search_document data = final (write_all (reached data (SStr "")) []).
Proof.
  unfold search_document. rewrite <- recursive_search_walk.
  destruct data as [x|[|y l]|[|kv d]]; try reflexivity.
  simpl. now destruct (negb (truthy x)).
Qed.

End PruneFacts.



(** On these two documents: three entries for the three reached nodes of
    the first one; one entry for the three reached nodes of the second
    one, whose second node ends the search. *)
Example find_services_mixed_and_stopped :
  YAMLAnalyzer.find_services_in_yaml
    (Scenario.loads Cases.mixed_doc) Scenario.no_regex "text"
  = [(YAMLAnalyzer.SStr "services[0]", "1");
     (YAMLAnalyzer.SStr "services[1]", "2");
     (YAMLAnalyzer.SStr "web", "4")]
  /\ YAMLAnalyzer.recursive_search Cases.stop_doc (YAMLAnalyzer.SStr "") []
     = YAMLAnalyzer.Err [(YAMLAnalyzer.SStr "a", "1")]
  /\ YAMLAnalyzer.find_services_in_yaml
       (Scenario.loads Cases.stop_doc) Scenario.no_regex "text"
     = [(YAMLAnalyzer.SStr "a", "1")].
Proof. repeat split. Qed.

(** The mapping below [build] is not reached: one entry for two mappings
    with an image. *)
Example find_services_below_build :
  YAMLAnalyzer.find_services_in_yaml
    (Scenario.loads Scenario.build_doc) Scenario.no_regex "text"
  = [(YAMLAnalyzer.SStr "web", "2")]
  /\ Walk.count_image_maps Scenario.build_doc = 2.
Proof. split; reflexivity. Qed.

(* ----------------------------------------------------------------- *)
(** ** find_services_in_yaml: what an exception leaves *)





(* ----------------------------------------------------------------- *)
(** ** make_request: bounds *)

Section MakeRequestBounds.
Import Transport Paging.
Context {B : Type}.
Variable truth : response B -> bool.
Variable session : nat -> reply B.

Lemma attempts_result_truth n a r :
  result (attempts truth session n a) = Some r ->
  status_code r = 200%Z /\ truth r = true.
Proof.
  revert a; induction n as [|n IH]; intros a; simpl; [discriminate|].
  destruct (session a) as [r'| |]; simpl.
  - destruct (truth r' && (status_code r' =? 200)%Z) eqn:E.
    + simpl. intros [= <-]. apply andb_prop in E as [E1 E2].
      split; [now apply Z.eqb_eq | exact E1].
    + destruct (truth r' && (status_code r' =? 429)%Z); simpl; [apply IH|discriminate].
  - apply IH.
  - discriminate.
Qed.

Lemma attempts_calls n a :
  calls (attempts truth session n a) <= n
  /\ List.length (sleeps (attempts truth session n a))
     <= calls (attempts truth session n a).
Proof.
  revert a; induction n as [|n IH]; intros a; simpl; [lia|].
  destruct (session a) as [r| |]; simpl.
  - destruct (truth r && (status_code r =? 200)%Z); simpl; [lia|].
    destruct (truth r && (status_code r =? 429)%Z); simpl;
      [specialize (IH (S a)); lia | lia].
  - specialize (IH (S a)). lia.
  - lia.
Qed.

(** The seconds slept from attempt [a] on, over [n] attempts, are at most
    [2 ^ (a + 1)] per attempt. *)
Lemma attempts_sleep n a :
  (0 <= total_sleep (sleeps (attempts truth session n a))
   <= 2 ^ (Z.of_nat a + 1) * (2 ^ Z.of_nat n - 1))%Z.
Proof.
  revert a; induction n as [|n IH]; intros a.
  - simpl. lia.
  - assert (Hp : (0 < 2 ^ (Z.of_nat a + 1))%Z) by (apply Z.pow_pos_nonneg; lia).
    assert (Hn : (1 <= 2 ^ Z.of_nat n)%Z)
      by (pose proof (Z.pow_pos_nonneg 2 (Z.of_nat n)); lia).
    assert (Hs : (2 ^ Z.of_nat (S n) = 2 * 2 ^ Z.of_nat n)%Z)
      by (rewrite Nat2Z.inj_succ, Z.pow_succ_r; lia).
    assert (Ha : (2 ^ (Z.of_nat (S a) + 1) = 2 * 2 ^ (Z.of_nat a + 1))%Z)
      by (rewrite Nat2Z.inj_succ;
          replace (Z.succ (Z.of_nat a) + 1)%Z with (Z.succ (Z.of_nat a + 1)) by lia;
          rewrite Z.pow_succ_r by lia; reflexivity).
    assert (Hq : (2 ^ (Z.of_nat a + 1) = 2 * 2 ^ Z.of_nat a)%Z)
      by (rewrite Z.pow_add_r, Z.pow_1_r by lia; lia).
    specialize (IH (S a)). rewrite Ha, Hq in IH. rewrite Hs, Hq.
    assert (HP : (0 < 2 ^ Z.of_nat a)%Z) by (apply Z.pow_pos_nonneg; lia).
    cbn [attempts]. unfold total_sleep in *.
    destruct (session a) as [r| |]; cbn [called slept sleeps fold_right].
    + destruct (truth r && (status_code r =? 200)%Z); cbn [sleeps fold_right]; [nia|].
      destruct (truth r && (status_code r =? 429)%Z); cbn [slept sleeps fold_right];
        [rewrite Hq|]; nia.
    + nia.
    + nia.
Qed.

End MakeRequestBounds.

(** X1: whatever the session answers, [make_request] calls it at most 3
    times, sleeps at most once per call, and sleeps at most 14 seconds in
    all. *)
Theorem make_request_bounded {B : Type}
    (truth : Transport.response B -> bool) (session : nat -> Transport.reply B) :
  Transport.calls (Transport.make_request truth session) <= 3
  /\ List.length (Transport.sleeps (Transport.make_request truth session))
     <= Transport.calls (Transport.make_request truth session)
  /\ (Paging.total_sleep (Transport.sleeps (Transport.make_request truth session))
      <= 14)%Z.
Proof.
  unfold Transport.make_request, Transport.max_retries.
  destruct (attempts_calls truth session 3 0) as [H1 H2].
  pose proof (attempts_sleep truth session 3 0) as H3.
  change (2 ^ (Z.of_nat 0 + 1) * (2 ^ Z.of_nat 3 - 1))%Z with 14%Z in H3.
  repeat split; [exact H1 | exact H2 | lia].
Qed.

(** X2: what [make_request] returns is a response with status 200 that
    is true as a condition. *)
Theorem make_request_returns_ok {B : Type}
    (truth : Transport.response B -> bool) (session : nat -> Transport.reply B)
    (r : Transport.response B) :
  Transport.result (Transport.make_request truth session) = Some r ->
  Transport.status_code r = 200%Z /\ truth r = true.
Proof. apply attempts_result_truth. Qed.

Lemma make_request_returns_ok_witness :
  Transport.status_code (Transport.mkResponse 200%Z tt false) = 200%Z
  /\ Transport.requests_bool (Transport.mkResponse 200%Z tt false) = true.
Proof.
  apply (make_request_returns_ok Transport.requests_bool
           Cases.always_ok (Transport.mkResponse 200%Z tt false)).
  reflexivity.
Defined.

(** X3: after [k] timeouts, [k] below 3, a response 200 is returned; the
    call has slept 1, 2, ... seconds, [2 ^ i] after the timeout of attempt
    [i], and has called the session [k + 1] times. *)
Theorem make_request_after_timeouts {B : Type}
    (truth : Transport.response B -> bool) (session : nat -> Transport.reply B)
    (k : nat) (r : Transport.response B) :
  k < 3 ->
  (forall i, i < k -> session i = Transport.Timeout) ->
  session k = Transport.Resp r ->
  truth r = true -> Transport.status_code r = 200%Z ->
  Transport.make_request truth session
  = Transport.mkLog (Some r) (map (fun i => (2 ^ Z.of_nat i)%Z) (seq 0 k)) (S k).
Proof.
  intros Hk Ht Hr Htruth H200.
  unfold Transport.make_request, Transport.max_retries.
  destruct k as [|[|[|k]]]; [| | |lia]; cbn [Transport.attempts].
  - now rewrite Hr, Htruth, H200.
  - rewrite (Ht 0) by lia. rewrite Hr, Htruth, H200. reflexivity.
  - rewrite (Ht 0), (Ht 1) by lia. rewrite Hr, Htruth, H200. reflexivity.
Qed.

Lemma make_request_after_timeouts_witness :
  Transport.make_request Transport.requests_bool Cases.slow_start
  = Transport.mkLog (Some (Transport.mkResponse 200%Z tt false))
      (map (fun i => (2 ^ Z.of_nat i)%Z) (seq 0 1)) 2.
Proof.
  apply (make_request_after_timeouts Transport.requests_bool Cases.slow_start 1
           (Transport.mkResponse 200%Z tt false)).
  - lia.
  - intros [|i] Hi; [reflexivity | lia].
  - reflexivity.
  - reflexivity.
  - reflexivity.
Defined.

(** X4: with the truth value that [requests] gives a response, only a
    timeout is retried: when the first call does not time out, it is the
    only call, no sleep is made, and the result is the response exactly when
    its status is 200. *)
Theorem make_request_single_call {B : Type}
    (session : nat -> Transport.reply B) :
  session 0 <> Transport.Timeout ->
  Transport.calls (Transport.make_request Transport.requests_bool session) = 1
  /\ Transport.sleeps (Transport.make_request Transport.requests_bool session) = []
  /\ Transport.result (Transport.make_request Transport.requests_bool session)
     = match session 0 with
       | Transport.Resp r =>
           if (Transport.status_code r =? 200)%Z then Some r else None
       | _ => None
       end.
Proof.
  intros H. unfold Transport.make_request, Transport.max_retries.
  cbn [Transport.attempts].
  destruct (session 0) as [r| |]; [|congruence|now repeat split].
  rewrite rate_limit_branch_unreachable.
  destruct (Z.eqb_spec (Transport.status_code r) 200) as [E|E].
  - unfold Transport.requests_bool. rewrite E. now repeat split.
  - rewrite andb_false_r. now repeat split.
Qed.

Lemma make_request_single_call_witness :
  Transport.calls (Transport.make_request Transport.requests_bool Cases.not_found) = 1
  /\ Transport.sleeps (Transport.make_request Transport.requests_bool Cases.not_found) = []
  /\ Transport.result (Transport.make_request Transport.requests_bool Cases.not_found)
     = match Cases.not_found 0 with
       | Transport.Resp r =>
           if (Transport.status_code r =? 200)%Z then Some r else None
       | _ => None
       end.
Proof.
  apply (make_request_single_call Cases.not_found). discriminate.
Defined.

(* ----------------------------------------------------------------- *)
(** ** get_all_projects: the cap, the order, the end of the loop *)

Section PagingFacts.
Import Transport Paging.

Variable truth : response (list project) -> bool.
Variable server : nat -> nat -> reply (list project).
Variable cap : Z.

Lemma length_take_upto {A} (m : Z) (l : list A) :
  (0 < m)%Z -> (Z.of_nat (List.length (take_upto m l)) <= m)%Z.
Proof.
  intros H. unfold take_upto. destruct (Z.leb_spec 0 m); [|lia].
  pose proof (firstn_le_length (Z.to_nat m) l). lia.
Qed.

Lemma take_upto_firstn {A} (m : Z) (l : list A) :
  exists n, take_upto m l = firstn n l.
Proof. unfold take_upto. destruct (0 <=? m)%Z; eauto. Qed.

(** Below the cap at the head of the loop, at most at the cap at its end. *)
Lemma get_all_projects_from_within_cap fuel :
  forall page all l,
    (0 < cap)%Z -> (Z.of_nat (List.length all) < cap)%Z ->
    get_all_projects_from truth server cap fuel page all = Some l ->
    (Z.of_nat (List.length l) <= cap)%Z.
Proof.
  induction fuel as [|fuel IH]; intros page all l Hcap Hall; [discriminate|].
  rewrite get_all_projects_from_step.
  destruct (result (make_request truth (server page))) as [r|];
    [|intros [= <-]; lia].
  destruct (body r) as [|p ps]; [intros [= <-]; lia|]. cbv zeta.
  destruct (Z.eqb_spec cap 0) as [|_]; [lia|]. cbn [negb andb].
  destruct (Z.leb_spec cap (Z.of_nat (List.length (all ++ p :: ps)))) as [Hle|Hgt].
  - intros [= <-]. now apply length_take_upto.
  - destruct (negb (next_link r)); [intros [= <-]; lia|].
    now apply IH.
Qed.

(** Each turn brings a project or leaves the loop: under a cap the loop
    ends within as many turns as the cap leaves room for projects. *)
Lemma get_all_projects_from_ends fuel :
  forall page all,
    (0 < cap)%Z -> (Z.of_nat (List.length all) < cap)%Z ->
    Z.to_nat cap - List.length all <= fuel ->
    exists l, get_all_projects_from truth server cap fuel page all = Some l.
Proof.
  induction fuel as [|fuel IH]; intros page all Hcap Hall Hfuel; [lia|].
  rewrite get_all_projects_from_step.
  destruct (result (make_request truth (server page))) as [r|]; [|eauto].
  destruct (body r) as [|p ps]; [eauto|]. cbv zeta.
  destruct (Z.eqb_spec cap 0) as [|_]; [lia|]. cbn [negb andb].
  destruct (Z.leb_spec cap (Z.of_nat (List.length (all ++ p :: ps)))) as [Hle|Hgt];
    [eauto|].
  destruct (negb (next_link r)); [eauto|].
  apply IH; [exact Hcap | exact Hgt |].
  rewrite length_app in *. simpl in *. lia.
Qed.

(** What is accumulated is what the pages brought, in their order. *)
Lemma get_all_projects_from_order fuel :
  forall page l,
    get_all_projects_from truth server cap fuel (S page)
      (pages_upto truth server page) = Some l ->
    exists k n, l = firstn n (pages_upto truth server k).
Proof.
  induction fuel as [|fuel IH]; intros page l; [discriminate|].
  rewrite get_all_projects_from_step.
  assert (Hall : forall n, pages_upto truth server page
                           = firstn (List.length (pages_upto truth server page) + n)
                               (pages_upto truth server page))
    by (intros n; symmetry; apply firstn_all2; lia).
  assert (Hnext : pages_upto truth server (S page)
                  = pages_upto truth server page ++ page_body truth server (S page)).
  { unfold pages_upto. rewrite seq_S, map_app, concat_app. simpl.
    now rewrite app_nil_r. }
  unfold page_body in Hnext.
  destruct (result (make_request truth (server (S page)))) as [r|];
    [|intros [= <-]; exists page, (List.length (pages_upto truth server page) + 0);
      apply Hall].
  destruct (body r) as [|p ps] eqn:Eb;
    [intros [= <-]; exists page, (List.length (pages_upto truth server page) + 0);
     apply Hall|].
  cbv zeta. rewrite <- Hnext.
  destruct (negb (cap =? 0)%Z && _).
  - intros [= <-].
    destruct (take_upto_firstn cap (pages_upto truth server (S page))) as [n Hn].
    exists (S page), n. exact Hn.
  - destruct (negb (next_link r)).
    + intros [= <-]. exists (S page), (List.length (pages_upto truth server (S page))).
      symmetry. apply firstn_all.
    + apply IH.
Qed.

End PagingFacts.

(** X5: under a positive cap, whatever the platform answers,
    [get_all_projects] never returns more projects than the cap. *)
Theorem get_all_projects_within_cap
    (truth : Transport.response (list Transport.project) -> bool)
    (server : nat -> nat -> Transport.reply (list Transport.project))
    (cap : Z) (fuel : nat) (l : list Transport.project) :
  (0 < cap)%Z ->
  Transport.get_all_projects truth server cap fuel = Some l ->
  (Z.of_nat (List.length l) <= cap)%Z.
Proof.
  intros Hcap. unfold Transport.get_all_projects.
  apply get_all_projects_from_within_cap; [exact Hcap | simpl; lia].
Qed.

Lemma get_all_projects_within_cap_witness :
  (Z.of_nat (List.length [Transport.mkProject 1%Z "p"; Transport.mkProject 1%Z "p"])
   <= 2)%Z.
Proof.
  apply (get_all_projects_within_cap Transport.requests_bool
           Cases.endless_server 2 5
           [Transport.mkProject 1%Z "p"; Transport.mkProject 1%Z "p"]).
  - lia.
  - reflexivity.
Defined.

(** X6: under a positive cap the loop of [get_all_projects] ends,
    whatever the platform answers, within as many turns as the cap. *)
Theorem get_all_projects_ends
    (truth : Transport.response (list Transport.project) -> bool)
    (server : nat -> nat -> Transport.reply (list Transport.project))
    (cap : Z) (fuel : nat) :
  (0 < cap)%Z -> Z.to_nat cap <= fuel ->
  exists l, Transport.get_all_projects truth server cap fuel = Some l.
Proof.
  intros Hcap Hfuel. unfold Transport.get_all_projects.
  apply get_all_projects_from_ends; simpl; lia.
Qed.

Lemma get_all_projects_ends_witness :
  exists l,
    Transport.get_all_projects Transport.requests_bool Cases.endless_server 3 3
    = Some l.
Proof.
  apply (get_all_projects_ends Transport.requests_bool Cases.endless_server 3 3); lia.
Defined.

(** X7: without a cap ([max_projects = 0]) the loop ends only when the
    platform ends it: when every page brings projects and the link to a next
    page, no number of turns is enough. *)
Theorem get_all_projects_uncapped_endless
    (truth : Transport.response (list Transport.project) -> bool)
    (server : nat -> nat -> Transport.reply (list Transport.project))
    (fuel : nat) :
  (forall page, exists r,
      Transport.result (Transport.make_request truth (server page)) = Some r
      /\ Transport.body r <> [] /\ Transport.next_link r = true) ->
  Transport.get_all_projects truth server 0 fuel = None.
Proof.
  intros H. unfold Transport.get_all_projects.
  generalize 1 as page. generalize (@nil Transport.project) as all.
  induction fuel as [|fuel IH]; intros all page; [reflexivity|].
  rewrite get_all_projects_from_step.
  destruct (H page) as (r & -> & Hb & Hn).
  destruct (Transport.body r) as [|p ps]; [congruence|]. cbv zeta.
  rewrite Hn. apply IH.
Qed.

Lemma get_all_projects_uncapped_endless_witness :
  Transport.get_all_projects Transport.requests_bool Cases.endless_server 0 1000
  = None.
Proof.
  apply (get_all_projects_uncapped_endless Transport.requests_bool
           Cases.endless_server 1000).
  intros page. exists (Transport.mkResponse 200%Z [Transport.mkProject 1%Z "p"] true).
  repeat split. discriminate.
Defined.

(** X8: [get_all_projects] returns the projects in the order in which the
    platform listed them: a beginning of the pages 1, 2, ... put one after
    the other. *)
Theorem get_all_projects_keeps_order
    (truth : Transport.response (list Transport.project) -> bool)
    (server : nat -> nat -> Transport.reply (list Transport.project))
    (cap : Z) (fuel : nat) (l : list Transport.project) :
  Transport.get_all_projects truth server cap fuel = Some l ->
  exists k n, l = firstn n (Paging.pages_upto truth server k).
Proof.
  unfold Transport.get_all_projects.
  apply (get_all_projects_from_order truth server cap fuel 0 l).
Qed.

Lemma get_all_projects_keeps_order_witness :
  exists k n,
    [Transport.mkProject 1%Z "p"; Transport.mkProject 1%Z "p"]
    = firstn n (Paging.pages_upto Transport.requests_bool Cases.endless_server k).
Proof.
  apply (get_all_projects_keeps_order Transport.requests_bool
           Cases.endless_server 2 5).
  reflexivity.
Defined.

(* ----------------------------------------------------------------- *)
(** ** Paths in URLs *)

Section EncodeFacts.
Import PyStr Shape Client.

Lemma all_chars_app p s t :
  all_chars p (s ++ t) = all_chars p s && all_chars p t.
Proof.
  induction s as [|c r IH]; simpl; [reflexivity|]. now rewrite IH, andb_assoc.
Qed.

Lemma replace_single_unfold a new c r :
  replace (String a "") new (String c r) =
  if Ascii.eqb a c then (new ++ replace (String a "") new r)%string
  else String c (replace (String a "") new r).
Proof.
  unfold replace. rewrite replace_from_cons, startswith_char. reflexivity.
Qed.

Lemma replace_single_removes a new s :
  all_chars (is_not a) new = true ->
  all_chars (is_not a) (replace (String a "") new s) = true.
Proof.
  intros Hn. induction s as [|c r IH]; [reflexivity|].
  rewrite replace_single_unfold. destruct (Ascii.eqb a c) eqn:E.
  - now rewrite all_chars_app, Hn, IH.
  - simpl. rewrite IH, andb_true_r. unfold is_not.
    now rewrite Ascii.eqb_sym, E.
Qed.

End EncodeFacts.

(** X9: [get_file_content] escapes the ['/'] of a file path and nothing
    else.  The path that is put into the URL holds no ['/']; a path without
    ['/'] is put there as it is; and since ['%'] is not escaped, a file
    whose name is the encoding of a path is asked for with the request of
    that path and gets its content, although the two paths differ whenever
    the path holds a ['/']. *)
Theorem get_file_content_escapes_slash_only
    (url : string) (file_session : Client.request -> nat -> Transport.reply string)
    (project_id : Z) (path ref : string) :
  PyStr.contains "/" (Client.encode_path path) = false
  /\ (PyStr.contains "/" path = false -> Client.encode_path path = path)
  /\ Client.file_request url project_id (Client.encode_path path) ref
     = Client.file_request url project_id path ref
  /\ Client.get_file_content url file_session project_id
       (Client.encode_path path) ref
     = Client.get_file_content url file_session project_id path ref
  /\ (PyStr.contains "/" path = true -> Client.encode_path path <> path).
Proof.
  assert (H : PyStr.contains "/" (Client.encode_path path) = false).
  { apply all_chars_not_contains.
    apply (replace_single_removes "/" "%2F" path). reflexivity. }
  assert (E : Client.encode_path (Client.encode_path path) = Client.encode_path path)
    by now apply replace_absent.
  split; [exact H|]. split; [apply replace_absent|].
  split; [|split].
  - unfold Client.file_request. now rewrite E.
  - unfold Client.get_file_content, Client.file_request. now rewrite E.
  - intros Hp Heq. rewrite Heq in H. congruence.
Qed.

Lemma get_file_content_escapes_slash_only_witness :
  Client.encode_path "ci/app.yml" = "ci%2Fapp.yml"
  /\ Client.encode_path "ci/app.yml" <> "ci/app.yml"
  /\ Client.get_file_content "https://gitlab.com" Cases.no_file 7
       (Client.encode_path "ci/app.yml") "main"
     = Client.get_file_content "https://gitlab.com" Cases.no_file 7
         "ci/app.yml" "main".
Proof.
  pose proof (get_file_content_escapes_slash_only
                "https://gitlab.com" Cases.no_file 7 "ci/app.yml" "main")
    as (_ & _ & _ & Hc & Hd).
  split; [reflexivity|]. split; [apply Hd; reflexivity | exact Hc].
Defined.

(* ----------------------------------------------------------------- *)
(** ** extract_image_tag: no colon is left *)

Section TagFacts.
Import PyStr YAMLAnalyzer Shape.

Lemma all_chars_substring p n m s :
  all_chars p s = true -> all_chars p (substring n m s) = true.
Proof.
  revert n m; induction s as [|c r IH]; intros n m H.
  - now destruct n, m.
  - simpl in H. apply andb_prop in H as [Hc Hr].
    destruct n as [|n]; simpl.
    + destruct m as [|m]; [reflexivity|]. simpl. now rewrite Hc, IH.
    + now apply IH.
Qed.

Lemma all_chars_slice p a b s :
  all_chars p s = true -> all_chars p (slice a b s) = true.
Proof.
  intros H. unfold slice, drop_last.
  now apply all_chars_substring, all_chars_drop.
Qed.

End TagFacts.

(** X10: the tag that [extract_image_tag] returns never holds a [':']. *)
Theorem extract_image_tag_has_no_colon (image_string : string) :
  PyStr.contains ":" (YAMLAnalyzer.extract_image_tag image_string) = false.
Proof.
  rewrite extract_image_tag_eq. cbv zeta.
  destruct (PyStr.contains ":" (PyStr.strip image_string)) eqn:E; [|exact E].
  destruct (split_char_last ":" (PyStr.strip image_string) E) as (pre & _ & Hall).
  apply all_chars_not_contains.
  destruct (PyStr.startswith "${" _ && PyStr.endswith "}" _); [|exact Hall].
  now apply all_chars_slice.
Qed.

(* ----------------------------------------------------------------- *)
(** ** normalize_service_name below the key [services] *)

Section ServicesPrefix.
Import PyStr YAMLAnalyzer Shape.

Lemma replace_char_app a b s t :
  replace (String a "") (String b "") (s ++ t)
  = (replace (String a "") (String b "") s
     ++ replace (String a "") (String b "") t)%string.
Proof.
  induction s as [|c r IH]; [reflexivity|].
  change ((String c r ++ t)%string) with (String c (r ++ t)).
  rewrite !replace_char_unfold, IH. reflexivity.
Qed.

Lemma normalize_below_services n :
  shaped n -> normalize_service_name ("services." ++ n) = n.
Proof.
  intros (H1 & H2 & H3 & H4 & H5 & H6). unfold normalize_service_name.
  change (("services." ++ n)%string =? "") with false. cbv iota.
  rewrite (replace_char_app "-" "_" "services." n).
  rewrite (replace_char_id "-" "_" n H1).
  change (replace "-" "_" "services.") with "services.".
  rewrite (replace_char_app "." "_" "services." n).
  rewrite (replace_char_id "." "_" n H2).
  change (replace "." "_" "services.") with "services_".
  unfold strip_services_prefix.
  assert (Hs : startswith "services_" ("services_" ++ n) = true).
  { reflexivity. }
  rewrite Hs. change (drop 9 ("services_" ++ n)) with n.
  rewrite (sub_brackets_id _ H3), (sub_underscores_id _ H4).
  now apply strip_char_id.
Qed.

End ServicesPrefix.

(** X11: a service met below the top-level key [services] is stored under
    its own name: for a name [n] in normal form, the path ['services.n']
    normalises to [n]. *)
Theorem normalize_service_below_services (n : string) :
  Shape.shaped n ->
  YAMLAnalyzer.normalize_service_name ("services." ++ n) = n.
Proof. apply normalize_below_services. Qed.

Lemma normalize_service_below_services_witness :
  YAMLAnalyzer.normalize_service_name ("services." ++ "web_1") = "web_1".
Proof.
  apply (normalize_service_below_services "web_1"). now repeat split.
Defined.

(* ----------------------------------------------------------------- *)
(** ** Documents in the shape of a compose file *)

Section ComposeFacts.
Import PyStr YAMLAnalyzer Walk Compose Collector Shape.

Lemma set_fresh {K V} (eqb : K -> K -> bool) k (v : V) d :
  PyDict.mem eqb k d = false -> PyDict.set eqb k v d = d ++ [(k, v)].
Proof.
  unfold PyDict.mem. induction d as [|[k' v'] d IH]; simpl; [reflexivity|].
  destruct (eqb k' k); [discriminate|]. intros H. now rewrite IH.
Qed.

Lemma not_structural_not_image n :
  structural (SStr n) = false -> key_eqb (SStr n) (SStr "image") = false.
Proof.
  unfold structural, structural_keys. cbn [existsb].
  intros H. now apply orb_false_iff in H as [H _].
Qed.

Lemma services_without_image svcs :
  (forall e, In e svcs -> structural (SStr (fst e)) = false) ->
  has_string_image (map service svcs) = false.
Proof.
  intros H. unfold has_string_image.
  assert (E : PyDict.get key_eqb (SStr "image") (map service svcs) = None).
  { induction svcs as [|e svcs IH]; [reflexivity|]. cbn [map service PyDict.get].
    rewrite (not_structural_not_image (fst e)) by (apply H; now left).
    apply IH. intros e' He'. apply H. now right. }
  now rewrite E.
Qed.

(** The search meets the services, each at the path ['services.<name>']. *)
Lemma reached_document svcs :
  (forall e, In e svcs -> structural (SStr (fst e)) = false) ->
  reached (document svcs) (SStr "") = map service_node svcs.
Proof.
  intros H. unfold document. cbn [reached].
  change (has_string_image [(SStr "services", VDict (map service svcs))]) with false.
  change (structural (SStr "services")) with false.
  change (child_path (SStr "") (SStr "services")) with (SStr "services").
  cbn [reached app]. rewrite (services_without_image svcs H). cbn [app].
  rewrite app_nil_r.
  induction svcs as [|e svcs IH]; [reflexivity|]. cbn [map service fst snd].
  rewrite (H e) by now left. cbn [reached].
  change (has_string_image [(SStr "image", VScalar (SStr (snd e)))]) with true.
  change (structural (SStr "image")) with true.
  cbn [app]. f_equal. apply IH. intros e' He'. apply H. now right.
Qed.

Lemma raw_key_differs n n' :
  n <> n' -> key_eqb (SStr ("services." ++ n)) (SStr ("services." ++ n')) = false.
Proof.
  intros H. simpl. apply String.eqb_neq. intros E. apply H.
  now injection E.
Qed.

(** The assignments for services with different names add one entry each. *)
Lemma write_all_document svcs :
  forall acc,
    NoDup (map fst svcs) ->
    (forall e, In e svcs ->
       PyDict.mem key_eqb (SStr ("services." ++ fst e)) acc = false) ->
    write_all (map service_node svcs) acc = Ok (acc ++ map raw_entry svcs).
Proof.
  induction svcs as [|e svcs IH]; intros acc Hnd Hacc.
  - simpl. now rewrite app_nil_r.
  - inversion Hnd as [|? ? Hnotin Hnd']; subst.
    cbn [map write_all service_node].
    change (record_image [(SStr "image", VScalar (SStr (snd e)))]
              (SStr ("services." ++ fst e)) acc)
      with (Ok (PyDict.set key_eqb (SStr ("services." ++ fst e))
                  (extract_image_tag (snd e)) acc)).
    cbn [and_then]. rewrite IH.
    + rewrite (set_fresh key_eqb _ _ acc) by (apply Hacc; now left).
      now rewrite <- app_assoc.
    + exact Hnd'.
    + intros e' He'.
      rewrite (mem_set_other key_eqb key_eqb_sym key_eqb_trans).
      * apply Hacc. now right.
      * apply raw_key_differs. intros E. apply Hnotin. rewrite E.
        now apply in_map.
Qed.

Lemma normalize_raw_key n :
  shaped n -> normalize_key (SStr ("services." ++ n)) = Returned n.
Proof.
  intros H. unfold normalize_key.
  change (negb (truthy (SStr ("services." ++ n)))) with false. cbv iota.
  now rewrite normalize_below_services.
Qed.

(** Normalising the names of such entries gives the names back. *)
Lemma normalized_document svcs :
  forall acc,
    NoDup (map fst svcs) ->
    (forall e, In e svcs -> shaped (fst e)) ->
    (forall e, In e svcs -> PyDict.mem String.eqb (fst e) acc = false) ->
    normalized (map raw_entry svcs) acc = Returned (acc ++ service_tags svcs).
Proof.
  induction svcs as [|e svcs IH]; intros acc Hnd Hsh Hacc.
  - simpl. now rewrite app_nil_r.
  - inversion Hnd as [|? ? Hnotin Hnd']; subst.
    cbn [map normalized raw_entry].
    rewrite (normalize_raw_key (fst e)) by (apply Hsh; now left).
    rewrite IH.
    + rewrite (set_fresh String.eqb _ _ acc) by (apply Hacc; now left).
      unfold service_tags. cbn [map]. now rewrite <- app_assoc.
    + exact Hnd'.
    + intros e' He'. apply Hsh. now right.
    + intros e' He'.
      rewrite (mem_set_other String.eqb String.eqb_sym string_eqb_trans).
      * apply Hacc. now right.
      * apply String.eqb_neq. intros E. apply Hnotin. rewrite E.
        now apply in_map.
Qed.

End ComposeFacts.

(** X12: for a manifest in the shape of a compose file,
    [{services: {name: {image: ref}, ...}}], with names in normal form,
    pairwise different and none of them a structural key, the search and
    the normalisation of line 250 give the ServiceMap that maps each name to
    the tag of its image, in the order of the document. *)
Theorem compose_document_services
    (safe_load : string -> YAMLAnalyzer.load_result)
    (extract_images_via_regex : string -> list (string * string))
    (content : string) (svcs : list (string * string)) :
  safe_load content = YAMLAnalyzer.Loaded (Compose.document svcs) ->
  NoDup (map fst svcs) ->
  (forall e, In e svcs ->
     Shape.shaped (fst e)
     /\ YAMLAnalyzer.structural (YAMLAnalyzer.SStr (fst e)) = false) ->
  Collector.normalized
    (YAMLAnalyzer.find_services_in_yaml safe_load extract_images_via_regex content)
    []
  = Returned (Compose.service_tags svcs).
Proof.
  intros Hload Hnd Hs. unfold YAMLAnalyzer.find_services_in_yaml. rewrite Hload.
  rewrite search_document_walk, reached_document by (intros e He; apply Hs, He).
  rewrite (write_all_document svcs [] Hnd) by reflexivity.
  cbn [YAMLAnalyzer.final app].
  apply (normalized_document svcs [] Hnd); [|reflexivity].
  intros e He. apply Hs, He.
Qed.

Lemma compose_document_services_witness :
  Collector.normalized
    (YAMLAnalyzer.find_services_in_yaml
       (Scenario.loads (Compose.document [("web", "nginx:1.21"); ("db", "postgres:${PG}")]))
       Scenario.no_regex "text")
    []
  = Returned (Compose.service_tags [("web", "nginx:1.21"); ("db", "postgres:${PG}")]).
Proof.
  apply (compose_document_services
           (Scenario.loads (Compose.document [("web", "nginx:1.21"); ("db", "postgres:${PG}")]))
           Scenario.no_regex "text" [("web", "nginx:1.21"); ("db", "postgres:${PG}")]).
  - reflexivity.
  - repeat constructor; simpl; intuition discriminate.
  - intros e [<-|[<-|[]]]; now repeat split.
Defined.

(* ----------------------------------------------------------------- *)
(** ** The regular-expression fallback: numbered keys *)

Section RegexFacts.
Import PyStr YAMLAnalyzer Regex.

Lemma str_of_nat_inj n m : str_of_nat n = str_of_nat m -> n = m.
Proof.
  unfold str_of_nat, str_of_Z. intros H.
  assert (Hd : forall z, NilZero.int_of_string (NilZero.string_of_int (Z.to_int z))
                         = Some (Z.to_int z)).
  { intros z. apply NilZero.isi; destruct z; simpl; try discriminate;
      intros [= E]; now apply DecimalPos.Unsigned.to_uint_nonnil in E. }
  pose proof (f_equal NilZero.int_of_string H) as E.
  rewrite !Hd in E. injection E as E.
  apply DecimalZ.to_int_inj in E. now apply Nat2Z.inj.
Qed.

Lemma service_key_inj n m :
  ("service_" ++ str_of_nat n)%string = ("service_" ++ str_of_nat m)%string -> n = m.
Proof. intros H. apply str_of_nat_inj. now injection H. Qed.

Lemma numbered_length from images :
  List.length (numbered from images) = List.length images.
Proof.
  revert from; induction images as [|g rest IH]; intros from; simpl; auto.
Qed.

Lemma numbered_app from a b :
  numbered from (a ++ b) = numbered from a ++ numbered (from + List.length a) b.
Proof.
  revert from; induction a as [|g a IH]; intros from; simpl.
  - now rewrite Nat.add_0_r.
  - rewrite IH. now rewrite Nat.add_succ_r.
Qed.

(** A number outside the range is not a key of the numbered entries. *)
Lemma numbered_fresh from images j :
  j < from \/ from + List.length images <= j ->
  PyDict.mem String.eqb ("service_" ++ str_of_nat j)%string (numbered from images) = false.
Proof.
  unfold PyDict.mem. revert from; induction images as [|g rest IH]; intros from H;
    [reflexivity|].
  cbn [numbered PyDict.get].
  destruct (String.eqb_spec ("service_" ++ str_of_nat from)%string
              ("service_" ++ str_of_nat j)%string) as [E|_].
  - apply service_key_inj in E. simpl in H. lia.
  - apply IH. simpl in H. lia.
Qed.

(** A number inside the range is a key. *)
Lemma numbered_mem from images j :
  from <= j < from + List.length images ->
  PyDict.mem String.eqb ("service_" ++ str_of_nat j)%string (numbered from images) = true.
Proof.
  unfold PyDict.mem. revert from; induction images as [|g rest IH]; intros from H;
    [simpl in H; lia|].
  cbn [numbered PyDict.get].
  destruct (String.eqb_spec ("service_" ++ str_of_nat from)%string
              ("service_" ++ str_of_nat j)%string) as [E|Hne]; [reflexivity|].
  apply IH. simpl in H.
  assert (from <> j) by (intros ->; now apply Hne). lia.
Qed.

(** Matches with one group: each adds the entry with the next number. *)
Lemma record_singles matches :
  forall images,
    (forall m, In m matches -> exists g, m = [g]) ->
    fold_left record_match matches (numbered 0 images)
    = numbered 0 (images ++ map (fun groups => hd "" groups) matches).
Proof.
  induction matches as [|m matches IH]; intros images H.
  - simpl. now rewrite app_nil_r.
  - destruct (H m (or_introl eq_refl)) as [g ->].
    cbn [fold_left record_match map hd].
    rewrite numbered_length.
    rewrite set_fresh by (apply numbered_fresh; right; simpl; lia).
    replace (numbered 0 images
             ++ [(("service_" ++ str_of_nat (List.length images))%string,
                  extract_image_tag g)])
      with (numbered 0 (images ++ [g]))
      by (rewrite numbered_app; reflexivity).
    rewrite IH by (intros m' Hm'; apply H; now right).
    now rewrite <- app_assoc.
Qed.

(** No match takes an entry away. *)
Lemma record_match_mono services groups :
  List.length services <= List.length (record_match services groups)
  /\ forall k, PyDict.mem String.eqb k services = true ->
               PyDict.mem String.eqb k (record_match services groups) = true.
Proof.
  unfold record_match.
  destruct groups as [|g1 [|g2 [|g3 rest]]]; try (split; [lia | auto]).
  - split; [apply set_length_ge|]. intros k Hk.
    now apply (mem_set_mono String.eqb String.eqb_sym string_eqb_trans).
  - split; [apply set_length_ge|]. intros k Hk.
    now apply (mem_set_mono String.eqb String.eqb_sym string_eqb_trans).
Qed.

Lemma record_matches_mono matches :
  forall services,
    List.length services <= List.length (fold_left record_match matches services)
    /\ forall k, PyDict.mem String.eqb k services = true ->
                 PyDict.mem String.eqb k (fold_left record_match matches services)
                 = true.
Proof.
  induction matches as [|m matches IH]; intros services; simpl; [split; auto|].
  destruct (record_match_mono services m) as [H1 H2].
  destruct (IH (record_match services m)) as [H3 H4].
  split; [lia | auto].
Qed.

End RegexFacts.

(** X13: in the fallback, when the matches of the first three patterns
    have one group each, they are entered as [service_0], [service_1], ...
    in the order of the patterns and of the matches, one entry per match;
    the matches of the fourth pattern are entered after them and take none
    of these keys away. *)
Theorem regex_fallback_numbers
    (finditer : nat -> string -> list (list string)) (content : string) :
  (forall pattern m, pattern < 3 -> In m (finditer pattern content) ->
     exists g, m = [g]) ->
  let singles := Regex.single_captures finditer content in
  let services := Regex.extract_images_via_regex finditer content in
  services = fold_left Regex.record_match (finditer 3 content)
               (Regex.numbered 0 singles)
  /\ List.length singles <= List.length services
  /\ forall j, j < List.length singles ->
       PyDict.mem String.eqb ("service_" ++ PyStr.str_of_nat j)%string services = true.
Proof.
  intros H singles services.
  assert (E : services = fold_left Regex.record_match (finditer 3 content)
                           (Regex.numbered 0 singles)).
  { unfold services, singles, Regex.extract_images_via_regex, Regex.single_captures.
    cbn [fold_left flat_map].
    change (@nil (string * string)) with (Regex.numbered 0 []).
    rewrite (record_singles (finditer 0 content) []) by (intros m Hm; apply (H 0); [lia | exact Hm]).
    rewrite (record_singles (finditer 1 content)) by (intros m Hm; apply (H 1); [lia | exact Hm]).
    rewrite (record_singles (finditer 2 content)) by (intros m Hm; apply (H 2); [lia | exact Hm]).
    cbn [app]. now rewrite app_nil_r, <- app_assoc. }
  split; [exact E|].
  destruct (record_matches_mono (finditer 3 content) (Regex.numbered 0 singles))
    as [H1 H2].
  rewrite numbered_length in H1. rewrite E. split; [exact H1|].
  intros j Hj. apply H2, numbered_mem. lia.
Qed.

Lemma regex_fallback_numbers_witness :
  let singles := Regex.single_captures Cases.two_image_lines "text" in
  let services := Regex.extract_images_via_regex Cases.two_image_lines "text" in
  services = fold_left Regex.record_match (Cases.two_image_lines 3 "text")
               (Regex.numbered 0 singles)
  /\ List.length singles <= List.length services
  /\ forall j, j < List.length singles ->
       PyDict.mem String.eqb ("service_" ++ PyStr.str_of_nat j)%string services = true.
Proof.
  apply (regex_fallback_numbers Cases.two_image_lines "text").
  intros [|[|[|p]]] m Hp Hm; simpl in Hm; try lia; try contradiction.
  - destruct Hm as [<-|[<-|[]]]; eauto.
Defined.

(* ----------------------------------------------------------------- *)
(** ** analyze_project: what a turn of the loop can do *)

Section AnalyzeAccounting.
Import PyStr YAMLAnalyzer Transport Collector Accounting.

Variable get_project_files : Z -> list file_entry.
Variable get_file_content : Z -> string -> option string.
Variable safe_load : string -> load_result.
Variable extract_images_via_regex : string -> list (string * string).

Let analyze_file' := analyze_file get_file_content safe_load extract_images_via_regex.
Let analyze_files' := analyze_files get_file_content safe_load extract_images_via_regex.
Let analyze_project' :=
  analyze_project get_project_files get_file_content safe_load extract_images_via_regex.

(** The four ways in which a turn ends. *)
Lemma analyze_file_cases pid yf ps st :
  (failed_fetch get_file_content pid yf = true
   /\ analyze_file' pid yf ps st = (Returned ps, add_error st))
  \/ (failed_fetch get_file_content pid yf = false
      /\ analyze_file' pid yf ps st = (Returned ps, st))
  \/ (failed_fetch get_file_content pid yf = false
      /\ analyze_file' pid yf ps st = (Raised, st))
  \/ (failed_fetch get_file_content pid yf = false
      /\ exists services norm,
           services <> []
           /\ normalized services [] = Returned norm
           /\ analyze_file' pid yf ps st
              = (Returned (PyDict.set String.eqb (manifest_key (f_name yf)) norm ps),
                 add_manifest (List.length services) st)).
Proof.
  unfold analyze_file', analyze_file, failed_fetch.
  destruct (get_file_content pid (f_path yf)) as [content|]; [|now left].
  destruct (content =? ""); [now left|].
  destruct (find_services_in_yaml _ _ content) as [|e services] eqn:E;
    [right; now left|].
  destruct (normalized (e :: services) []) as [norm|] eqn:En;
    [|right; right; now left].
  right; right; right. split; [reflexivity|].
  exists (e :: services), norm. repeat split; [discriminate | exact En].
Qed.

(** An invariant of the turns is an invariant of the loop. *)
Lemma analyze_files_invariant (R : manifest_map -> stats -> Prop) (Q : stats -> Prop) pid :
  (forall yf ps st, R ps st ->
     match analyze_file' pid yf ps st with
     | (Returned ps', st') => R ps' st'
     | (Raised, st') => Q st'
     end) ->
  forall yaml_files ps st, R ps st ->
    match analyze_files' pid yaml_files ps st with
    | (Returned ps', st') => R ps' st'
    | (Raised, st') => Q st'
    end.
Proof.
  intros Hstep. induction yaml_files as [|yf rest IH]; intros ps st HR; [exact HR|].
  unfold analyze_files'. cbn [analyze_files]. fold analyze_file'.
  specialize (Hstep yf ps st HR).
  destruct (analyze_file' pid yf ps st) as [[ps1|] st1]; [|exact Hstep].
  apply IH, Hstep.
Qed.

Lemma grown_refl st : grown st st.
Proof. unfold grown. repeat split; lia. Qed.

Lemma grown_trans a b c : grown a b -> grown b c -> grown a c.
Proof. unfold grown. intros (?&?&?&?&?) (?&?&?&?&?). repeat split; lia. Qed.

Lemma normalized_length_ge items :
  forall acc norm, normalized items acc = Returned norm ->
                   List.length acc <= List.length norm.
Proof.
  induction items as [|[s t] items IH]; intros acc norm; simpl.
  - now intros [= <-].
  - destruct (normalize_key s) as [k|]; [|discriminate].
    intros H. apply IH in H. pose proof (set_length_ge String.eqb k t acc). lia.
Qed.

Lemma normalized_nonempty services norm :
  services <> [] -> normalized services [] = Returned norm -> norm <> [].
Proof.
  destruct services as [|[s t] services]; [congruence|]. intros _. simpl.
  destruct (normalize_key s) as [k|]; [|discriminate].
  intros H. apply normalized_length_ge in H. simpl in H.
  destruct norm; [simpl in H; lia | discriminate].
Qed.

Lemma total_set_le {V} (f : V -> nat) k v (d : list (string * V)) :
  total f (PyDict.set String.eqb k v d) <= total f d + f v.
Proof.
  induction d as [|[k' v'] d IH]; simpl; [lia|].
  destruct (String.eqb k' k); simpl; lia.
Qed.

Lemma set_nonempty {V} k (v : V) (d : list (string * V)) :
  PyDict.set String.eqb k v d <> [].
Proof. destruct d as [|[k' v'] d]; simpl; [|destruct (String.eqb k' k)]; discriminate. Qed.

Lemma analyze_files_accounting pid yaml_files st0 :
  match analyze_files' pid yaml_files [] st0 with
  | (Returned ps, st) => loop_invariant st0 ps st
  | (Raised, st) => grown st0 st /\ projects_with_yaml st = projects_with_yaml st0
  end.
Proof.
  apply (analyze_files_invariant (loop_invariant st0)
           (fun st => grown st0 st /\ projects_with_yaml st = projects_with_yaml st0));
    [|unfold loop_invariant; repeat split; try lia; constructor].
  intros yf ps st (Hg & Hp & Hf & Hm & Hs).
  destruct (analyze_file_cases pid yf ps st)
    as [[_ ->]|[[_ ->]|[[_ ->]|[_ (services & norm & Hne & Hn & ->)]]]].
  - unfold loop_invariant, grown in *. simpl. repeat split; try tauto; lia.
  - unfold loop_invariant. tauto.
  - tauto.
  - pose proof (normalized_length_le _ _ _ Hn) as Hle. simpl in Hle.
    pose proof (total_set_le (fun m : norm_map => List.length m)
                  (manifest_key (f_name yf)) norm ps) as Ht.
    pose proof (set_length_le String.eqb (manifest_key (f_name yf)) norm ps) as Hl.
    unfold loop_invariant, grown, services_in in *. simpl.
    repeat split; try lia.
    apply (Forall_val_set String.eqb (fun m : norm_map => m <> []));
      [exact Hf|]. now apply (normalized_nonempty services).
Qed.

(** Candidates whose fetch gave nothing are counted, each once. *)
Lemma analyze_files_errors pid yaml_files :
  forall ps st ps' st',
    analyze_files' pid yaml_files ps st = (Returned ps', st') ->
    errors st' = errors st
                 + List.length (filter (failed_fetch get_file_content pid) yaml_files).
Proof.
  induction yaml_files as [|yf rest IH]; intros ps st ps' st'.
  - intros [= _ <-]. simpl. lia.
  - unfold analyze_files'. cbn [analyze_files filter]. fold analyze_file' analyze_files'.
    destruct (analyze_file_cases pid yf ps st)
      as [[Hf ->]|[[Hf ->]|[[Hf ->]|[Hf (services & norm & Hne & Hn & ->)]]]];
      rewrite Hf; try discriminate; intros H; apply IH in H; simpl in *; lia.
Qed.

(** What [analyze_project] returns and what it does to the counters. *)
Lemma analyze_project_accounting p st :
  match analyze_project' p st with
  | (Returned (Some res), st') =>
      project_id res = p_id p /\ project_name res = p_name p
      /\ services res <> [] /\ filled_manifests (services res)
      /\ grown st st'
      /\ projects_with_yaml st' = S (projects_with_yaml st)
      /\ List.length (services res) + total_yaml_files st <= total_yaml_files st'
      /\ services_in (services res) + total_services st <= total_services st'
  | (_, st') => grown st st' /\ projects_with_yaml st' = projects_with_yaml st
  end.
Proof.
  unfold analyze_project', analyze_project.
  destruct (get_project_files (p_id p)) as [|f files];
    [split; [apply grown_refl | reflexivity]|].
  destruct (filter is_candidate (f :: files)) as [|yf yaml_files];
    [split; [apply grown_refl | reflexivity]|].
  pose proof (analyze_files_accounting (p_id p) (yf :: yaml_files) st) as H.
  unfold analyze_files' in H.
  destruct (analyze_files _ _ _ (p_id p) (yf :: yaml_files) [] st) as [[ps|] st1];
    [|exact H].
  destruct H as (Hg & Hp & Hf & Hm & Hs).
  destruct ps as [|e ps]; [split; [exact Hg | exact Hp]|].
  cbn [project_id project_name services].
  unfold grown in *. simpl. repeat split; try discriminate; try tauto; try lia.
Qed.

Lemma analyze_project_errors p st o st' :
  analyze_project' p st = (Returned o, st') ->
  errors st' = errors st
               + List.length (filter (failed_fetch get_file_content (p_id p))
                                (filter is_candidate (get_project_files (p_id p)))).
Proof.
  unfold analyze_project', analyze_project.
  destruct (get_project_files (p_id p)) as [|f files];
    [intros [= _ <-]; simpl; lia|].
  destruct (filter is_candidate (f :: files)) as [|yf yaml_files];
    [intros [= _ <-]; simpl; lia|].
  destruct (analyze_files _ _ _ (p_id p) (yf :: yaml_files) [] st)
    as [[ps|] st1] eqn:E; [|discriminate].
  apply analyze_files_errors in E.
  destruct ps; intros [= _ <-]; simpl in *; lia.
Qed.

Lemma analyze_project_candidates p st :
  analyze_project' p st
  = analyze_project (fun pid => filter is_candidate (get_project_files pid))
      get_file_content safe_load extract_images_via_regex p st.
Proof.
  unfold analyze_project', analyze_project.
  destruct (get_project_files (p_id p)) as [|f files]; [reflexivity|].
  destruct (filter is_candidate (f :: files)) as [|yf yaml_files] eqn:E;
    [reflexivity|].
  assert (Hid : filter is_candidate (yf :: yaml_files) = yf :: yaml_files).
  { rewrite <- E. clear E. generalize (f :: files) as l.
    induction l as [|x l IH]; [reflexivity|]. simpl.
    destruct (is_candidate x) eqn:Ex; [|exact IH]. simpl. now rewrite Ex, IH. }
  now rewrite Hid.
Qed.

End AnalyzeAccounting.

(** X14: [analyze_project] looks only at the candidate manifests: the
    result and the counters are the same for a file tree from which every
    entry that is not a blob named [*.yml] or [*.yaml], or that is named
    [.gitlab-ci.yml], [docker-compose.yml] or [docker-compose.yaml], has
    been taken out. *)
Theorem analyze_project_only_candidates
    (get_project_files : Z -> list Collector.file_entry)
    (get_file_content : Z -> string -> option string)
    (safe_load : string -> YAMLAnalyzer.load_result)
    (extract_images_via_regex : string -> list (string * string))
    (p : Transport.project) (st : Collector.stats) :
  Collector.analyze_project get_project_files get_file_content safe_load
    extract_images_via_regex p st
  = Collector.analyze_project
      (fun pid => filter Collector.is_candidate (get_project_files pid))
      get_file_content safe_load extract_images_via_regex p st.
Proof. apply analyze_project_candidates. Qed.

(** X15: whatever [analyze_project] does, also when it raises, no counter
    of the statistics goes down and the number of listed projects is not
    touched. *)
Theorem analyze_project_counters_grow
    (get_project_files : Z -> list Collector.file_entry)
    (get_file_content : Z -> string -> option string)
    (safe_load : string -> YAMLAnalyzer.load_result)
    (extract_images_via_regex : string -> list (string * string))
    (p : Transport.project) (st : Collector.stats) :
  Accounting.grown st
    (snd (Collector.analyze_project get_project_files get_file_content safe_load
            extract_images_via_regex p st)).
Proof.
  pose proof (analyze_project_accounting get_project_files get_file_content
                safe_load extract_images_via_regex p st) as H.
  destruct (Collector.analyze_project _ _ _ _ p st) as [[[res|]|] st']; simpl; tauto.
Qed.

(** X16: a result of [analyze_project] carries the id and the name of the
    project, at least one manifest, and no manifest without a service; the
    project is then counted once in [projects_with_yaml], and the counters
    of manifests and of services grow by at least what the result holds. *)
Theorem analyze_project_result
    (get_project_files : Z -> list Collector.file_entry)
    (get_file_content : Z -> string -> option string)
    (safe_load : string -> YAMLAnalyzer.load_result)
    (extract_images_via_regex : string -> list (string * string))
    (p : Transport.project) (st st' : Collector.stats)
    (res : Collector.project_result) :
  Collector.analyze_project get_project_files get_file_content safe_load
    extract_images_via_regex p st = (Returned (Some res), st') ->
  Collector.project_id res = Transport.p_id p
  /\ Collector.project_name res = Transport.p_name p
  /\ Collector.services res <> []
  /\ Accounting.filled_manifests (Collector.services res)
  /\ Collector.projects_with_yaml st' = S (Collector.projects_with_yaml st)
  /\ List.length (Collector.services res) + Collector.total_yaml_files st
     <= Collector.total_yaml_files st'
  /\ Accounting.services_in (Collector.services res) + Collector.total_services st
     <= Collector.total_services st'.
Proof.
  intros E.
  pose proof (analyze_project_accounting get_project_files get_file_content
                safe_load extract_images_via_regex p st) as H.
  rewrite E in H. tauto.
Qed.

Lemma analyze_project_result_witness :
  Collector.project_id (Collector.mkResult 1 "demo" [("infra", [("web", "1.21")])])
  = Transport.p_id Scenario.demo
  /\ Collector.project_name (Collector.mkResult 1 "demo" [("infra", [("web", "1.21")])])
     = Transport.p_name Scenario.demo
  /\ Collector.services (Collector.mkResult 1 "demo" [("infra", [("web", "1.21")])]) <> []
  /\ Accounting.filled_manifests
       (Collector.services (Collector.mkResult 1 "demo" [("infra", [("web", "1.21")])]))
  /\ Collector.projects_with_yaml (Collector.mkStats 0 1 1 1 0)
     = S (Collector.projects_with_yaml Collector.no_stats)
  /\ List.length (Collector.services (Collector.mkResult 1 "demo" [("infra", [("web", "1.21")])]))
     + Collector.total_yaml_files Collector.no_stats
     <= Collector.total_yaml_files (Collector.mkStats 0 1 1 1 0)
  /\ Accounting.services_in
       (Collector.services (Collector.mkResult 1 "demo" [("infra", [("web", "1.21")])]))
     + Collector.total_services Collector.no_stats
     <= Collector.total_services (Collector.mkStats 0 1 1 1 0).
Proof.
  apply (analyze_project_result
           (Scenario.files_named ["docker-compose.yml"; "infra.yaml"])
           (Scenario.text_of "web: {image: nginx:1.21}")
           (Scenario.loads Scenario.web_doc) Scenario.no_regex
           Scenario.demo Collector.no_stats).
  reflexivity.
Defined.

(** X17: when [analyze_project] returns, the error counter has grown by
    the number of candidate manifests whose fetch gave nothing: no content,
    or an empty text, which line 243 takes for a failure as well. *)
Theorem analyze_project_counts_failed_fetches
    (get_project_files : Z -> list Collector.file_entry)
    (get_file_content : Z -> string -> option string)
    (safe_load : string -> YAMLAnalyzer.load_result)
    (extract_images_via_regex : string -> list (string * string))
    (p : Transport.project) (st st' : Collector.stats)
    (o : option Collector.project_result) :
  Collector.analyze_project get_project_files get_file_content safe_load
    extract_images_via_regex p st = (Returned o, st') ->
  Collector.errors st'
  = Collector.errors st
    + List.length
        (filter (Accounting.failed_fetch get_file_content (Transport.p_id p))
           (filter Collector.is_candidate (get_project_files (Transport.p_id p)))).
Proof. apply analyze_project_errors. Qed.

Lemma analyze_project_counts_failed_fetches_witness :
  Collector.errors (Collector.mkStats 0 0 0 0 2)
  = Collector.errors Collector.no_stats
    + List.length
        (filter (Accounting.failed_fetch Cases.empty_texts (Transport.p_id Scenario.demo))
           (filter Collector.is_candidate
              (Scenario.files_named ["a.yml"; "notes.txt"; "b.yaml"]
                 (Transport.p_id Scenario.demo)))).
Proof.
  apply (analyze_project_counts_failed_fetches
           (Scenario.files_named ["a.yml"; "notes.txt"; "b.yaml"])
           Cases.empty_texts (Scenario.loads Scenario.web_doc) Scenario.no_regex
           Scenario.demo Collector.no_stats (Collector.mkStats 0 0 0 0 2) None).
  reflexivity.
Defined.

(* ----------------------------------------------------------------- *)
(** ** collect_all_services: what every run keeps *)

Section CollectLoops.
Import Transport Collector Accounting.

Variable analyze : project -> stats -> outcome (option project_result) * stats.
Variable J : collector -> Prop.
Hypothesis on_return :
  forall c p res st, J c -> analyze p (stats_of c) = (Returned res, st) ->
                     J (store res st (results c)).
Hypothesis on_raise :
  forall c p st, J c -> analyze p (stats_of c) = (Raised, st) ->
                 J (mkCollector st (results c))
                 /\ J (mkCollector (add_error st) (results c)).

Lemma collect_threaded_invariant completed :
  forall c, J c -> J (collect_threaded analyze completed c).
Proof.
  induction completed as [|p rest IH]; intros c Hc; [exact Hc|].
  cbn [collect_threaded]. apply IH.
  destruct (analyze p (stats_of c)) as [[res|] st] eqn:E.
  - now apply (on_return c p).
  - now apply (on_raise c p).
Qed.

Lemma collect_sequential_invariant projects :
  forall c, J c -> J (snd (collect_sequential analyze projects c)).
Proof.
  induction projects as [|p rest IH]; intros c Hc; [exact Hc|].
  cbn [collect_sequential].
  destruct (analyze p (stats_of c)) as [[res|] st] eqn:E.
  - apply IH. now apply (on_return c p).
  - now apply (on_raise c p).
Qed.

Hypothesis on_total :
  forall c n, J c -> J (mkCollector (set_total_projects n (stats_of c)) (results c)).

Lemma collect_all_services_invariant connected projects use_threads completed c :
  J c ->
  J (snd (collect_all_services analyze connected projects use_threads completed c)).
Proof.
  intros Hc. unfold collect_all_services.
  destruct (negb connected); [exact Hc|].
  destruct projects as [|p projects]; [exact Hc|].
  destruct (use_threads && _).
  - apply collect_threaded_invariant, on_total, Hc.
  - apply collect_sequential_invariant, on_total, Hc.
Qed.

End CollectLoops.


Section CollectAccounting.
Import Transport Collector Accounting.

Variable get_project_files : Z -> list file_entry.
Variable get_file_content : Z -> string -> option string.
Variable safe_load : string -> YAMLAnalyzer.load_result.
Variable extract_images_via_regex : string -> list (string * string).

Lemma analyze_project_facts p st o st' :
  analyze_project get_project_files get_file_content safe_load
    extract_images_via_regex p st = (o, st') ->
  grown st st'
  /\ forall res, o = Returned (Some res) ->
       services res <> [] /\ filled_manifests (services res)
       /\ S (projects_with_yaml st) <= projects_with_yaml st'
       /\ List.length (services res) + total_yaml_files st <= total_yaml_files st'
       /\ services_in (services res) + total_services st <= total_services st'.
Proof.
  intros E.
  pose proof (analyze_project_accounting get_project_files get_file_content
                safe_load extract_images_via_regex p st) as H.
  rewrite E in H. destruct o as [[res|]|].
  - split; [tauto|]. intros res' [= <-]. repeat split; try tauto. lia.
  - split; [tauto|]. discriminate.
  - split; [tauto|]. discriminate.
Qed.

Lemma run_filled connected projects use_threads completed :
  filled (results (snd (collect_all_services
                          (analyze_project get_project_files get_file_content
                             safe_load extract_images_via_regex)
                          connected projects use_threads completed new_collector))).
Proof.
  apply (collect_all_services_invariant _ (fun c => filled (results c)));
    [| |auto|constructor].
  - intros c p res st Hc E. apply analyze_project_facts in E as [_ E].
    destruct res as [res|]; [|exact Hc]. destruct (E res eq_refl) as (H1 & H2 & _).
    cbn [store results].
    apply (Forall_val_set String.eqb
             (fun ps : manifest_map => ps <> [] /\ filled_manifests ps));
      [exact Hc | now split].
  - intros c p st Hc _. now split.
Qed.

Lemma covered_after_return c p res st :
  covered c ->
  analyze_project get_project_files get_file_content safe_load
    extract_images_via_regex p (stats_of c) = (Returned res, st) ->
  covered (store res st (results c)).
Proof.
  intros (H1 & H2 & H3) E.
  apply analyze_project_facts in E as [(_ & G2 & G3 & G4 & _) E].
  destruct res as [res|]; [|unfold covered; cbn [store results stats_of]; lia].
  destruct (E res eq_refl) as (_ & _ & E1 & E2 & E3).
  pose proof (set_length_le String.eqb (project_name res) (services res) (results c)).
  pose proof (total_set_le (fun ps : manifest_map => List.length ps)
                (project_name res) (services res) (results c)).
  pose proof (total_set_le services_in
                (project_name res) (services res) (results c)).
  unfold covered, stored_manifests, stored_services in *.
  cbn [store results stats_of]. lia.
Qed.

Lemma covered_after_raise c p st :
  covered c ->
  analyze_project get_project_files get_file_content safe_load
    extract_images_via_regex p (stats_of c) = (Raised, st) ->
  covered (mkCollector st (results c))
  /\ covered (mkCollector (add_error st) (results c)).
Proof.
  intros (H1 & H2 & H3) E.
  apply analyze_project_facts in E as [(_ & G2 & G3 & G4 & _) _].
  unfold covered. simpl. lia.
Qed.

(** The loop of lines 305-308, on which the units follow one another. *)
Lemma sequential_run_covered connected projects use_threads completed :
  use_threads && Nat.ltb 1 (List.length projects) = false ->
  covered (snd (collect_all_services
                  (analyze_project get_project_files get_file_content
                     safe_load extract_images_via_regex)
                  connected projects use_threads completed new_collector)).
Proof.
  intros Hseq.
  assert (H0 : covered new_collector) by (unfold covered; simpl; lia).
  unfold collect_all_services.
  destruct (negb connected); [exact H0|].
  destruct projects as [|p projects]; [exact H0|].
  rewrite Hseq.
  apply (collect_sequential_invariant _ covered).
  - apply covered_after_return.
  - apply covered_after_raise.
  - exact H0.
Qed.

Lemma run_total_projects (projects : list project) (use_threads : bool)
    (completed : list project) (n : nat) :
  forall c, total_projects (stats_of c) = n ->
  total_projects
    (stats_of (snd (if use_threads
                    then (Returned tt,
                          collect_threaded
                            (analyze_project get_project_files get_file_content
                               safe_load extract_images_via_regex) completed c)
                    else collect_sequential
                           (analyze_project get_project_files get_file_content
                              safe_load extract_images_via_regex) projects c)))
  = n.
Proof.
  intros c Hc. destruct use_threads; cbn [snd].
  - apply (collect_threaded_invariant _ (fun c => total_projects (stats_of c) = n));
      [| |exact Hc].
    + intros c0 p res st H0 E. apply analyze_project_facts in E as [(G & _) _].
      destruct res; cbn [store stats_of]; congruence.
    + intros c0 p st H0 E. apply analyze_project_facts in E as [(G & _) _].
      cbn [stats_of add_error total_projects]. split; congruence.
  - apply (collect_sequential_invariant _ (fun c => total_projects (stats_of c) = n));
      [| |exact Hc].
    + intros c0 p res st H0 E. apply analyze_project_facts in E as [(G & _) _].
      destruct res; cbn [store stats_of]; congruence.
    + intros c0 p st H0 E. apply analyze_project_facts in E as [(G & _) _].
      cbn [stats_of add_error total_projects]. split; congruence.
Qed.

End CollectAccounting.

(** X18: in [self.results], after any run, no project is stored without a
    manifest and no manifest without a service. *)
Theorem results_hold_no_empty_entry
    (get_project_files : Z -> list Collector.file_entry)
    (get_file_content : Z -> string -> option string)
    (safe_load : string -> YAMLAnalyzer.load_result)
    (extract_images_via_regex : string -> list (string * string))
    (connected : bool) (projects : list Transport.project)
    (use_threads : bool) (completed : list Transport.project) :
  Accounting.filled
    (Collector.results
       (snd (Collector.collect_all_services
               (Collector.analyze_project get_project_files get_file_content
                  safe_load extract_images_via_regex)
               connected projects use_threads completed
               Collector.new_collector))).
Proof. apply run_filled. Qed.

(** X19: after any run that takes the loop without threads
    ([use_threads] false, or at most one project), also one that an
    exception ended, the statistics cover the results: there are at most
    [projects_with_yaml] projects, at most [total_yaml_files] manifests and
    at most [total_services] services in [self.results]. *)
Theorem statistics_cover_results
    (get_project_files : Z -> list Collector.file_entry)
    (get_file_content : Z -> string -> option string)
    (safe_load : string -> YAMLAnalyzer.load_result)
    (extract_images_via_regex : string -> list (string * string))
    (connected : bool) (projects : list Transport.project)
    (use_threads : bool) (completed : list Transport.project) :
  use_threads && Nat.ltb 1 (List.length projects) = false ->
  Accounting.covered
    (snd (Collector.collect_all_services
            (Collector.analyze_project get_project_files get_file_content
               safe_load extract_images_via_regex)
            connected projects use_threads completed
            Collector.new_collector)).
Proof. apply sequential_run_covered. Qed.

Lemma statistics_cover_results_witness :
  Accounting.covered
    (snd (Collector.collect_all_services
            (Collector.analyze_project Scenario.two_files Scenario.two_texts
               Scenario.two_loads Scenario.no_regex)
            true [Scenario.demo; Scenario.other] false []
            Collector.new_collector)).
Proof.
  apply (statistics_cover_results Scenario.two_files Scenario.two_texts
           Scenario.two_loads Scenario.no_regex true
           [Scenario.demo; Scenario.other] false []).
  reflexivity.
Defined.

(** X20: once the platform is reached and lists projects, [total_projects]
    is the number of listed projects at the end of the run, whatever the
    units do and also when an exception ends the run. *)
Theorem total_projects_is_listing_length
    (get_project_files : Z -> list Collector.file_entry)
    (get_file_content : Z -> string -> option string)
    (safe_load : string -> YAMLAnalyzer.load_result)
    (extract_images_via_regex : string -> list (string * string))
    (projects : list Transport.project)
    (use_threads : bool) (completed : list Transport.project)
    (c : Collector.collector) :
  projects <> [] ->
  Collector.total_projects
    (Collector.stats_of
       (snd (Collector.collect_all_services
               (Collector.analyze_project get_project_files get_file_content
                  safe_load extract_images_via_regex)
               true projects use_threads completed c)))
  = List.length projects.
Proof.
  intros Hne. unfold Collector.collect_all_services. cbn [negb].
  destruct projects as [|p projects]; [congruence|].
  apply (run_total_projects get_project_files get_file_content safe_load
           extract_images_via_regex (p :: projects)
           (use_threads && Nat.ltb 1 (List.length (p :: projects))) completed).
  reflexivity.
Qed.

Lemma total_projects_is_listing_length_witness :
  Collector.total_projects
    (Collector.stats_of
       (snd (Collector.collect_all_services
               (Collector.analyze_project Scenario.two_files Scenario.two_texts
                  Scenario.two_loads Scenario.no_regex)
               true [Scenario.demo; Scenario.other] false [] Collector.new_collector)))
  = List.length [Scenario.demo; Scenario.other].
Proof.
  apply (total_projects_is_listing_length Scenario.two_files Scenario.two_texts
           Scenario.two_loads Scenario.no_regex [Scenario.demo; Scenario.other]
           false [] Collector.new_collector).
  discriminate.
Defined.

Section TreeFailure.
Import Transport.
Context {B : Type}.
Variable session : nat -> reply B.

(** Timeouts, then a reply that is not a response 200, or timeouts only:
    [make_request] has no result. *)
Lemma attempts_without_200 n :
  forall a k,
    k <= n ->
    (forall i, i < k -> session (a + i) = Timeout) ->
    (k < n -> session (a + k) <> Timeout
              /\ forall r, session (a + k) = Resp r -> status_code r <> 200%Z) ->
    result (attempts requests_bool session n a) = None.
Proof.
  induction n as [|n IH]; intros a k Hk Hbefore Hat; [reflexivity|].
  cbn [attempts]. unfold called. cbn [result].
  destruct k as [|k].
  - destruct Hat as [Hne Hst]; [lia|]. rewrite Nat.add_0_r in Hne, Hst.
    destruct (session a) as [r| |]; [|congruence|reflexivity].
    specialize (Hst r eq_refl). apply Z.eqb_neq in Hst.
    now rewrite Hst, andb_false_r, rate_limit_branch_unreachable.
  - pose proof (Hbefore 0 ltac:(lia)) as H0. rewrite Nat.add_0_r in H0.
    rewrite H0. unfold slept. cbn [result].
    apply (IH (S a) k); [lia| |].
    + intros i Hi. rewrite Nat.add_succ_comm. apply Hbefore. lia.
    + intros Hlt. rewrite Nat.add_succ_comm. apply Hat. lia.
Qed.

End TreeFailure.

(** X22: on the client, a project whose file tree is asked for in vain
    contributes nothing: when the request times out at each of the three
    calls, or when the first call that does not time out is answered by
    anything but a response 200, [analyze_project] returns [None] and
    leaves every counter as it was.  [k] is the number of calls that time
    out first. *)
Theorem tree_failure_contributes_nothing
    (url : string)
    (tree_session : Client.request -> nat -> Transport.reply (list Collector.file_entry))
    (file_session : Client.request -> nat -> Transport.reply string)
    (safe_load : string -> YAMLAnalyzer.load_result)
    (extract_images_via_regex : string -> list (string * string))
    (p : Transport.project) (st : Collector.stats) (k : nat) :
  k <= Transport.max_retries ->
  (forall i, i < k ->
     tree_session (Client.tree_request url (Transport.p_id p)) i = Transport.Timeout) ->
  (k < Transport.max_retries ->
     tree_session (Client.tree_request url (Transport.p_id p)) k <> Transport.Timeout
     /\ forall r, tree_session (Client.tree_request url (Transport.p_id p)) k
                  = Transport.Resp r -> Transport.status_code r <> 200%Z) ->
  Client.analyze_project url tree_session file_session safe_load
    extract_images_via_regex p st
  = (Returned None, st).
Proof.
  intros Hk Hbefore Hat.
  unfold Client.analyze_project, Collector.analyze_project.
  unfold Client.get_project_files at 1. unfold Transport.make_request.
  now rewrite (attempts_without_200
                 (tree_session (Client.tree_request url (Transport.p_id p)))
                 Transport.max_retries 0 k Hk Hbefore Hat).
Qed.

Lemma tree_failure_contributes_nothing_witness :
  Client.analyze_project "https://gitlab.com" Cases.late_forbidden Cases.no_file
    (Scenario.loads Scenario.web_doc) Scenario.no_regex Scenario.demo Collector.no_stats
  = (Returned None, Collector.no_stats).
Proof.
  apply (tree_failure_contributes_nothing "https://gitlab.com"
           Cases.late_forbidden Cases.no_file
           (Scenario.loads Scenario.web_doc) Scenario.no_regex
           Scenario.demo Collector.no_stats 1).
  - unfold Transport.max_retries. auto.
  - intros [|i] Hi; [reflexivity|]. exfalso. inversion Hi as [|? H]. inversion H.
  - intros _. split; [discriminate|]. intros r [= <-]. discriminate.
Defined.


(** X23: the manifests [<base>.yml] and [<base>.yaml] of a project have
    the same key, so the one that comes later in the file tree replaces the
    other in the project's entry (for a [base] that holds no ['.yml'] and no
    ['.yaml']). *)
Theorem manifest_key_same_for_both_extensions (base : string) :
  PyStr.contains ".yml" base = false ->
  PyStr.contains ".yaml" base = false ->
  Collector.manifest_key (base ++ ".yml") = Collector.manifest_key (base ++ ".yaml").
Proof.
  intros H1 H2. destruct (manifest_key_clean base H1 H2) as [-> ->]. reflexivity.
Qed.

Lemma manifest_key_same_for_both_extensions_witness :
  Collector.manifest_key ("infra" ++ ".yml") = Collector.manifest_key ("infra" ++ ".yaml").
Proof.
  apply (manifest_key_same_for_both_extensions "infra"); reflexivity.
Defined.

(** Both manifests are counted, one is kept. *)
Example analyze_project_two_extensions :
  Collector.analyze_project (Scenario.files_named ["infra.yml"; "infra.yaml"])
    (Scenario.text_of "text") (Scenario.loads Scenario.web_doc) Scenario.no_regex
    Scenario.demo Collector.no_stats
  = (Returned (Some (Collector.mkResult 1 "demo" [("infra", [("web", "1.21")])])),
     Collector.mkStats 0 1 2 2 0).
Proof. reflexivity. Qed.
